(** * A shallow embedding of the MCP client sketches

    The repository documents a protocol client as TypeScript classes:
    tool execution and validation ([mcp-tools-quality.md]), prompt
    parameter validation ([mcp-docs/mcp-prompts-quality.md]) and the
    protocol layer ([ai-dev-mvp/main.prompt.md]).  Each class is
    translated method by method.  Part I holds the definitions, Part II
    the lemmas about them.

    Conventions of the embedding:
    - a JavaScript value is a [JValue]; numbers are integers ([Z]);
    - an object used as a dictionary is the list of its own entries in
      the order [Object.entries] enumerates them, or a [gmap] where only
      lookups matter; reading a property of it also finds the members
      every object inherits from [Object.prototype];
    - a method that can throw returns a [Completion];
    - a method that mutates [this] threads the fields as a record;
    - a helper the classes call but never define is a function argument
      of the method that calls it. *)

From Stdlib Require Import ZArith String Ascii List Bool Lia.
From stdpp Require Import base option list strings gmap.
Import ListNotations.

Set Warnings "-register-all".

(** * Part I: definitions *)

(** ** JavaScript values *)

Module Js.

Inductive JValue : Type :=
| JUndefined
| JNull
| JBool (b : bool)
| JNum (n : Z)
| JStr (s : string)
| JArr (items : list JValue)
| JObj (fields : list (string * JValue))
| JBuiltin (name : string).
    (* the built-in object every object inherits under [name] from
       Object.prototype: a function, or the prototype itself when the
       name is __proto__ *)

(** The own entries of an object, in the order [Object.entries]
    enumerates them: integer keys first, in ascending order, then the
    other keys in insertion order. *)
Definition Entries : Type := list (string * JValue).

(** The names of the members of [Object.prototype]. *)
Definition object_prototype : list string :=
  ["constructor"; "__defineGetter__"; "__defineSetter__"; "hasOwnProperty";
   "__lookupGetter__"; "__lookupSetter__"; "isPrototypeOf"; "propertyIsEnumerable";
   "toString"; "valueOf"; "__proto__"; "toLocaleString"].

(** Whether an object created by a literal or by [JSON.parse] inherits
    a member named [k]. *)
Definition inherits (k : string) : bool := existsb (String.eqb k) object_prototype.

(** What reading [k] gives on an object that has no own entry of that
    name. *)
Definition inherited (k : string) : JValue :=
  if inherits k then JBuiltin k else JUndefined.

(** The value of the object's own entry named [k], if it has one. *)
Fixpoint own (o : Entries) (k : string) : option JValue :=
  match o with
  | [] => None
  | (k', v) :: o' => if String.eqb k' k then Some v else own o' k
  end.

(** [o[k]]: the value of the own entry named [k]; without one, the
    member of that name inherited from [Object.prototype], and
    [undefined] when there is none either. *)
Definition get (o : Entries) (k : string) : JValue :=
  match own o k with
  | Some v => v
  | None => inherited k
  end.

(** [typeof v]. *)
Definition typeof (v : JValue) : string :=
  match v with
  | JUndefined => "undefined"
  | JNull => "object"
  | JBool _ => "boolean"
  | JNum _ => "number"
  | JStr _ => "string"
  | JArr _ => "object"
  | JObj _ => "object"
  | JBuiltin k => if String.eqb k "__proto__" then "object" else "function"
  end.

(** The [length] of a built-in: the number of parameters the function
    declares; the prototype object has no such property. *)
Definition builtin_length (k : string) : JValue :=
  if String.eqb k "__proto__" then JUndefined
  else if existsb (String.eqb k) ["toString"; "valueOf"; "toLocaleString"] then JNum 0
  else if existsb (String.eqb k) ["__defineGetter__"; "__defineSetter__"] then JNum 2
  else JNum 1.

(** [v === undefined || v === null]. *)
Definition nullish (v : JValue) : bool :=
  match v with
  | JUndefined | JNull => true
  | _ => false
  end.

(** [Boolean(v)]. *)
Definition truthy (v : JValue) : bool :=
  match v with
  | JUndefined | JNull => false
  | JBool b => b
  | JNum n => negb (n =? 0)%Z
  | JStr s => negb (String.eqb s "")
  | JArr _ | JObj _ | JBuiltin _ => true
  end.

(** The comparison [Array.prototype.includes] uses: primitives are
    compared by value, objects and arrays by identity (a value decoded
    from a message is never the very object a schema holds; a built-in
    is the same object wherever it is read). *)
Definition same_value_zero (a b : JValue) : bool :=
  match a, b with
  | JUndefined, JUndefined => true
  | JNull, JNull => true
  | JBool x, JBool y => Bool.eqb x y
  | JNum x, JNum y => (x =? y)%Z
  | JStr x, JStr y => String.eqb x y
  | JBuiltin x, JBuiltin y => String.eqb x y
  | _, _ => false
  end.

Definition includes (l : list JValue) (v : JValue) : bool :=
  existsb (same_value_zero v) l.

(** What the language does with a value where the embedding does not
    spell it out: the number a string, array or object converts to
    ([None] is NaN), [String(v)] of a value that is not a string,
    whether a string is the source of a regular expression ([new
    RegExp(source)] throws a [SyntaxError] when it is not), and whether
    the expression of a source matches a string. *)
Record Runtime : Type := {
  coerce_number : JValue -> option Z;
  coerce_string : JValue -> string;
  regexp_valid : string -> bool;
  regexp_test : string -> string -> bool
}.

(** [Number(v)]. *)
Definition to_number (rt : Runtime) (v : JValue) : option Z :=
  match v with
  | JUndefined => None
  | JNull => Some 0%Z
  | JBool b => Some (if b then 1%Z else 0%Z)
  | JNum n => Some n
  | _ => coerce_number rt v
  end.

(** [String(v)]. *)
Definition to_string (rt : Runtime) (v : JValue) : string :=
  match v with
  | JStr s => s
  | _ => coerce_string rt v
  end.

(** [v < m] and [v > m] against a number [m]: false when [v] converts
    to NaN. *)
Definition lt_num (rt : Runtime) (v : JValue) (m : Z) : bool :=
  match to_number rt v with
  | Some n => (n <? m)%Z
  | None => false
  end.

Definition gt_num (rt : Runtime) (v : JValue) (m : Z) : bool :=
  match to_number rt v with
  | Some n => (m <? n)%Z
  | None => false
  end.

End Js.

(** ** Exceptions and completions *)

Module Exn.

(** One entry of a validation error list.  Each constructor stands for
    one message template of the validators. *)
Inductive Message : Type :=
| MissingRequired (param : string)
    (* `Missing required parameter: ${param}` *)
| UnknownParameter (param : string)
    (* `Unknown parameter: ${param}` *)
| TypeExpected (param expected got : string)
    (* `Parameter ${name}: expected ${schema.type}, got ${typeof value}` *)
| NotAllowed (param : string) (allowed : list Js.JValue)
    (* `Parameter ${name}: value not in allowed values: ...` *)
| BelowMinimum (param : string) (minimum : Z)
    (* `Parameter ${name}: value below minimum ${schema.minimum}` *)
| AboveMaximum (param : string) (maximum : Z)
    (* `Parameter ${name}: value above maximum ${schema.maximum}` *)
| LengthBelow (param : string) (minLength : Z)
    (* `Parameter ${name}: length below minimum ${schema.minLength}` *)
| LengthAbove (param : string) (maxLength : Z)
    (* `Parameter ${name}: length above maximum ${schema.maxLength}` *)
| PatternFailed (param : string)
    (* `Parameter ${name}: pattern validation failed` *)
| Text (s : string).
    (* any other non-empty string *)

(** The [ToolError] codes. *)
Inductive ToolError : Type :=
| VALIDATION_FAILED
| INVALID_ARGUMENTS
| EXECUTION_TIMEOUT
| EXECUTION_FAILED
| PERMISSION_DENIED
| RATE_LIMIT_EXCEEDED
| QUOTA_EXCEEDED.

Definition code (e : ToolError) : Z :=
  match e with
  | VALIDATION_FAILED => 4000
  | INVALID_ARGUMENTS => 4001
  | EXECUTION_TIMEOUT => 5000
  | EXECUTION_FAILED => 5001
  | PERMISSION_DENIED => 6000
  | RATE_LIMIT_EXCEEDED => 6001
  | QUOTA_EXCEEDED => 6002
  end.

(** What a [throw] carries. *)
Inductive Thrown : Type :=
| TypeError
| SyntaxError
| Error (message : string)
| ValidationError (errors : list Message)
| PermissionError (tool : string)
| RateLimitError (tool : string)
| QuotaError (tool : string)
| TimeoutError
| Handled (e : ToolError).

Inductive Completion (A : Type) : Type :=
| Normal (a : A)
| Throw (e : Thrown).

Arguments Normal {A} a.
Arguments Throw {A} e.

End Exn.

Export Exn.

(** A method body over the fields [S] of its object. *)
Definition Method (S A : Type) : Type := S -> Completion A * S.

Definition ret {S A} (a : A) : Method S A := fun s => (Normal a, s).

Definition throw {S A} (e : Thrown) : Method S A := fun s => (Throw e, s).

Definition bind {S A B} (m : Method S A) (k : A -> Method S B) : Method S B :=
  fun s =>
    match m s with
    | (Normal a, s') => k a s'
    | (Throw e, s') => (Throw e, s')
    end.

(** [try { m } catch (error) { h error }]. *)
Definition try_catch {S A} (m : Method S A) (h : Thrown -> Method S A) : Method S A :=
  fun s =>
    match m s with
    | (Normal a, s') => (Normal a, s')
    | (Throw e, s') => h e s'
    end.

Definition read {S} : Method S S := fun s => (Normal s, s).

Definition modify {S} (f : S -> S) : Method S unit := fun s => (Normal tt, f s).

Declare Scope method_scope.
Delimit Scope method_scope with method.
Notation "'do' x <- m ; k" := (bind m (fun x => k))
  (at level 10, x name, m at level 100, k at level 200) : method_scope.
Notation "'run' m ; k" := (bind m (fun _ => k))
  (at level 10, m at level 100, k at level 200) : method_scope.

(** ** Schemas *)

Module Schema.

(** The schema of one parameter ([JSONSchema]), with the fields the
    validators and sanitizers read.  An absent field is [None]. *)
Record JSONSchema : Type := {
  type : option string;
  enum : option (list Js.JValue);
  minimum : option Z;
  maximum : option Z;
  minLength : option Z;
  maxLength : option Z;
  pattern : option string
}.

(** [tool.inputSchema] and [prompt.parametersSchema]. *)
Record ObjectSchema : Type := {
  required : option (list string);
  properties : option (gmap string JSONSchema);
  additionalProperties : bool
}.

(** The schema that [schema.properties] holds under [key] as an own
    entry: what the schema declares for the parameter. *)
Definition declared (schema : ObjectSchema) (key : string) : option JSONSchema :=
  match properties schema with
  | Some props => props !! key
  | None => None
  end.

(** What a member inherited from [Object.prototype] reads as where the
    schema of a parameter is expected.  The member is a function (the
    prototype itself under __proto__), which is truthy and has none of
    the properties a [JSONSchema] holds: each field reads [undefined]. *)
Definition inherited_member : JSONSchema :=
  {| type := None; enum := None; minimum := None; maximum := None;
     minLength := None; maxLength := None; pattern := None |}.

(** [schema.properties?.[key]]: [properties] is a plain object, so that
    the lookup finds what the schema declares and, failing that, the
    member of that name inherited from [Object.prototype]. *)
Definition property (schema : ObjectSchema) (key : string) : option JSONSchema :=
  match properties schema with
  | Some props =>
      match props !! key with
      | Some s => Some s
      | None => if Js.inherits key then Some inherited_member else None
      end
  | None => None
  end.

Record Tool : Type := {
  name : string;
  inputSchema : ObjectSchema;
  static : bool
}.

End Schema.

(** ** ArgumentSanitizer and PromptContentSanitizer *)

Module Sanitizer.

Import Js Schema.

(** The characters the sanitizers delete: less-than (60), greater-than
    (62), double quote (34) and single quote (39). *)
Definition unsafe_char (c : ascii) : bool :=
  let n := nat_of_ascii c in
  (n =? 60)%nat || (n =? 62)%nat || (n =? 34)%nat || (n =? 39)%nat.

Definition safe (c : ascii) : bool := negb (unsafe_char c).

(** [s.replace(re, '')] for the global pattern [re] of that character
    class: every such character is deleted. *)
Definition strip_unsafe (s : string) : string :=
  string_of_list_ascii
    (List.filter safe (list_ascii_of_string s)).

(** [ArgumentSanitizer.sanitizeString]. *)
Definition sanitizeString (rt : Runtime) (value : JValue) : string :=
  let value :=
    if negb (String.eqb (typeof value) "string") then JStr (to_string rt value)
    else value in
  strip_unsafe (to_string rt value).

(** The sanitizers of the other types, which the class calls and does
    not define. *)
Record Helpers : Type := {
  sanitizeNumber : JValue -> JValue;
  sanitizeArray : JValue -> JSONSchema -> JValue;
  sanitizeObject : JValue -> JSONSchema -> JValue
}.

(** [ArgumentSanitizer.sanitizeValue]. *)
Definition sanitizeValue (rt : Runtime) (h : Helpers)
    (value : JValue) (schema : JSONSchema) : JValue :=
  match type schema with
  | Some t =>
      if String.eqb t "string" then JStr (sanitizeString rt value)
      else if String.eqb t "number" then sanitizeNumber h value
      else if String.eqb t "boolean" then JBool (truthy value)
      else if String.eqb t "array" then sanitizeArray h value schema
      else if String.eqb t "object" then sanitizeObject h value schema
      else value
  | None => value
  end.

(** [sanitized[key] = v] on the own properties of [sanitized], an
    object made by a literal.  The name __proto__ is an accessor of
    [Object.prototype]: assigning to it replaces the prototype of the
    object (or does nothing) and adds no own property. *)
Definition assign (key : string) (v : JValue) (sanitized : gmap string JValue)
    : gmap string JValue :=
  if String.eqb key "__proto__" then sanitized else <[key := v]> sanitized.

(** One turn of the loop of [sanitizeArguments]. *)
Definition sanitizeEntry (rt : Runtime) (h : Helpers) (schema : ObjectSchema)
    (sanitized : gmap string JValue) (entry : string * JValue) : gmap string JValue :=
  let '(key, value) := entry in
  match property schema key with
  | Some s => assign key (sanitizeValue rt h value s) sanitized
  | None => sanitized
  end.

(** [ArgumentSanitizer.sanitizeArguments]. *)
Definition sanitizeArguments (rt : Runtime) (h : Helpers)
    (args : Entries) (tool : Tool) : gmap string JValue :=
  let schema := inputSchema tool in
  fold_left (sanitizeEntry rt h schema) args ∅.

(** [\r] and [\n]. *)
Definition CR : ascii := ascii_of_nat 13.
Definition LF : ascii := ascii_of_nat 10.
Definition SP : ascii := ascii_of_nat 32.

(** [s.replace(/\r\n|\r|\n/g, ' ')], on the characters of [s]. *)
Fixpoint newlines_to_spaces (l : list ascii) : list ascii :=
  match l with
  | [] => []
  | c :: rest =>
      if Ascii.eqb c CR then
        match rest with
        | c' :: rest' =>
            if Ascii.eqb c' LF then SP :: newlines_to_spaces rest'
            else SP :: newlines_to_spaces rest
        | [] => [SP]
        end
      else if Ascii.eqb c LF then SP :: newlines_to_spaces rest
      else c :: newlines_to_spaces rest
  end.

(** The white space [trim] removes, among the characters below 256. *)
Definition white_space (c : ascii) : bool :=
  let n := nat_of_ascii c in
  ((9 <=? n)%nat && (n <=? 13)%nat) || (n =? 32)%nat || (n =? 160)%nat.

Fixpoint trim_start (l : list ascii) : list ascii :=
  match l with
  | [] => []
  | c :: rest => if white_space c then trim_start rest else l
  end.

Fixpoint trim_end (l : list ascii) : list ascii :=
  match l with
  | [] => []
  | c :: rest =>
      match trim_end rest with
      | [] => if white_space c then [] else [c]
      | kept => c :: kept
      end
  end.

(** [s.trim()]. *)
Definition trim (l : list ascii) : list ascii := trim_end (trim_start l).

(** [PromptContentSanitizer.sanitizeText]. *)
Definition sanitizeText (content : string) : string :=
  string_of_list_ascii
    (trim
       (newlines_to_spaces
          (List.filter safe (list_ascii_of_string content)))).

(** Neither [\r] nor [\n]. *)
Definition no_newline (c : ascii) : Prop := c <> CR /\ c <> LF.

(** A list that does not start with white space. *)
Definition starts_clean (l : list ascii) : Prop :=
  match l with
  | [] => True
  | c :: _ => white_space c = false
  end.

End Sanitizer.

(** ** Validators *)

Module Validator.

Import Js Schema.

Record ValidationResult : Type := {
  valid : bool;
  errors : list Message
}.

(** [{ valid: errors.length === 0, errors }]. *)
Definition result_of (errors : list Message) : ValidationResult :=
  {| valid := (length errors =? 0)%nat; errors := errors |}.

(** The first loop of both validators: one message for each required
    parameter [p] with [args[p] === undefined || args[p] === null]. *)
Definition missing_required (schema : ObjectSchema) (args : Entries) : list Message :=
  match required schema with
  | Some params =>
      flat_map (fun param => if nullish (get args param) then [MissingRequired param] else [])
        params
  | None => []
  end.

(** *** QualityToolExecutor.validateArguments

    [checkType] is called by the class and not defined by it; it
    returns a message, or a falsy value ([None]). *)
Definition CheckType : Type := string -> JValue -> JSONSchema -> option Message.

Definition checkArgument (checkType : CheckType) (schema : ObjectSchema)
    (entry : string * JValue) : list Message :=
  let '(param, value) := entry in
  match property schema param with
  | Some paramSchema =>
      match checkType param value paramSchema with
      | Some typeError => [typeError]
      | None => []
      end
  | None => []
  end.

Definition validateArguments (checkType : CheckType) (tool : Tool) (args : Entries)
    : ValidationResult :=
  let schema := inputSchema tool in
  result_of (missing_required schema args ++ flat_map (checkArgument checkType schema) args).

(** *** PromptParameterValidator *)

(** [schema.type === t]. *)
Definition type_is (schema : JSONSchema) (t : string) : bool :=
  match type schema with
  | Some t' => String.eqb t' t
  | None => false
  end.

(** [value.length]: reading a property of [null] or [undefined]
    throws. *)
Definition length_of (value : JValue) : Completion JValue :=
  match value with
  | JUndefined | JNull => Throw TypeError
  | JStr s => Normal (JNum (Z.of_nat (String.length s)))
  | JArr items => Normal (JNum (Z.of_nat (length items)))
  | JObj fields => Normal (get fields "length")
  | JBool _ | JNum _ => Normal JUndefined
  | JBuiltin k => Normal (builtin_length k)
  end.

(** [if (schema.type && typeof value !== schema.type)]. *)
Definition type_errors (name : string) (value : JValue) (schema : JSONSchema) : list Message :=
  match type schema with
  | Some t =>
      if negb (String.eqb t "") && negb (String.eqb (typeof value) t)
      then [TypeExpected name t (typeof value)] else []
  | None => []
  end.

(** [if (schema.enum && !schema.enum.includes(value))]. *)
Definition enum_errors (name : string) (value : JValue) (schema : JSONSchema) : list Message :=
  match enum schema with
  | Some allowed => if negb (includes allowed value) then [NotAllowed name allowed] else []
  | None => []
  end.

(** The range block, entered when the declared type is [number] or
    [integer]. *)
Definition range_errors (rt : Runtime) (name : string) (value : JValue) (schema : JSONSchema)
    : list Message :=
  if type_is schema "number" || type_is schema "integer" then
    match minimum schema with
    | Some m => if lt_num rt value m then [BelowMinimum name m] else []
    | None => []
    end ++
    match maximum schema with
    | Some m => if gt_num rt value m then [AboveMaximum name m] else []
    | None => []
    end
  else [].

Definition min_length_errors (rt : Runtime) (name : string) (value : JValue)
    (schema : JSONSchema) : Completion (list Message) :=
  match minLength schema with
  | Some m =>
      match length_of value with
      | Normal len => Normal (if lt_num rt len m then [LengthBelow name m] else [])
      | Throw e => Throw e
      end
  | None => Normal []
  end.

Definition max_length_errors (rt : Runtime) (name : string) (value : JValue)
    (schema : JSONSchema) : Completion (list Message) :=
  match maxLength schema with
  | Some m =>
      match length_of value with
      | Normal len => Normal (if gt_num rt len m then [LengthAbove name m] else [])
      | Throw e => Throw e
      end
  | None => Normal []
  end.

(** [if (schema.pattern && !new RegExp(schema.pattern).test(value))]:
    building the expression throws when the pattern is not the source
    of one; [test] converts its argument to a string. *)
Definition pattern_errors (rt : Runtime) (name : string) (value : JValue) (schema : JSONSchema)
    : Completion (list Message) :=
  match pattern schema with
  | Some p =>
      if negb (String.eqb p "") then
        if regexp_valid rt p then
          Normal (if negb (regexp_test rt p (to_string rt value))
                  then [PatternFailed name] else [])
        else Throw SyntaxError
      else Normal []
  | None => Normal []
  end.

(** The string block, entered when the declared type is [string]. *)
Definition string_errors (rt : Runtime) (name : string) (value : JValue) (schema : JSONSchema)
    : Completion (list Message) :=
  if type_is schema "string" then
    match min_length_errors rt name value schema with
    | Normal below =>
        match max_length_errors rt name value schema with
        | Normal above =>
            match pattern_errors rt name value schema with
            | Normal failed => Normal (below ++ above ++ failed)
            | Throw e => Throw e
            end
        | Throw e => Throw e
        end
    | Throw e => Throw e
    end
  else Normal [].

(** [PromptParameterValidator.validateParameter]. *)
Definition validateParameter (rt : Runtime) (name : string) (value : JValue)
    (schema : JSONSchema) : Completion (list Message) :=
  let errors :=
    type_errors name value schema ++ enum_errors name value schema
    ++ range_errors rt name value schema in
  match string_errors rt name value schema with
  | Normal more => Normal (errors ++ more)
  | Throw e => Throw e
  end.

Record PromptDefinition : Type := {
  prompt_name : string;
  parametersSchema : option ObjectSchema;
  template : string
}.

(** The second loop of [validateParameters], from the entry [entries]
    on, pushing onto [errors]. *)
Fixpoint validateEntries (rt : Runtime) (schema : ObjectSchema)
    (entries : Entries) (errors : list Message) : Completion (list Message) :=
  match entries with
  | [] => Normal errors
  | (param, value) :: rest =>
      match property schema param with
      | Some paramSchema =>
          match validateParameter rt param value paramSchema with
          | Normal paramErrors => validateEntries rt schema rest (errors ++ paramErrors)
          | Throw e => Throw e
          end
      | None =>
          if negb (additionalProperties schema)
          then validateEntries rt schema rest (errors ++ [UnknownParameter param])
          else validateEntries rt schema rest errors
      end
  end.

(** [PromptParameterValidator.validateParameters]. *)
Definition validateParameters (rt : Runtime) (prompt : PromptDefinition) (params : Entries)
    : Completion ValidationResult :=
  match parametersSchema prompt with
  | None => Normal {| valid := true; errors := [] |}
  | Some schema =>
      match validateEntries rt schema params (missing_required schema params) with
      | Normal errors => Normal (result_of errors)
      | Throw e => Throw e
      end
  end.

(** The messages about the value of a parameter, as against those
    about its presence. *)
Definition about_value (e : Message) : Prop :=
  match e with
  | MissingRequired _ | UnknownParameter _ => False
  | _ => True
  end.

End Validator.

(** ** What the specification calls a violation

    These definitions follow the specification's words (required
    presence, type match, enum membership, numeric range, string
    length and pattern); the validators above are compared with them. *)

Module Violation.

Import Js Schema Validator.

Section Kinds.

Variable rt : Runtime.










(** A required parameter is absent: the arguments have no entry of
    that name, or one that holds [null] or [undefined]. *)
Definition missing (schema : ObjectSchema) (args : Entries) (param : string) : Prop :=
  exists params, required schema = Some params /\ In param params
    /\ nullish (default JUndefined (own args param)) = true.



End Kinds.

End Violation.

(** ** The client: requests on the wire and the tool cache *)

Module Client.

Import Js Schema.

Record RPCRequest : Type := {
  jsonrpc : string;
  id : JValue;
  method : string;
  params : JValue
}.

Record RPCResponse : Type := {
  response_id : JValue;
  result : option JValue;
  error : option JValue
}.

(** What leaves the client: a request handed to [session.request], or
    the fetch of one tool definition ([fetchToolFromServer]). *)
Inductive Transmission : Type :=
| Request (request : RPCRequest)
| FetchTool (name : string).

Record CachedTool : Type := {
  tool : Tool;
  timestamp : Z;
  ttl : Z
}.

(** The fields the methods below share: [ToolCacheManager.cache] and
    the transmissions so far, oldest first. *)
Record State : Type := {
  cache : gmap string CachedTool;
  sent : list Transmission
}.

Definition transmit (t : Transmission) (s : State) : State :=
  {| cache := cache s; sent := sent s ++ [t] |}.

Definition cache_set (name : string) (entry : CachedTool) (s : State) : State :=
  {| cache := <[name := entry]> (cache s); sent := sent s |}.

(** The remote side: what it answers to a request, given what was sent
    before ([Throw] for a rejected or timed-out request), and the tool
    definition it serves. *)
Record Server : Type := {
  respond : list Transmission -> RPCRequest -> Completion RPCResponse;
  definition : list Transmission -> string -> Completion Tool
}.

(** [session.request(request)]. *)
Definition session_request (server : Server) (request : RPCRequest) : Method State RPCResponse :=
  fun s => (respond server (sent s) request, transmit (Request request) s).

(** [fetchToolFromServer(name)]: one round trip to the server. *)
Definition fetchToolFromServer (server : Server) (name : string) : Method State Tool :=
  fun s => (definition server (sent s) name, transmit (FetchTool name) s).

Definition staticCacheTTL : Z := 3600000.
Definition dynamicCacheTTL : Z := 300000.

(** [tool.static ? this.staticCacheTTL : this.dynamicCacheTTL]. *)
Definition ttl_of (t : Tool) : Z :=
  if static t then staticCacheTTL else dynamicCacheTTL.

(** [ToolCacheManager.isCacheExpired], with [now] for [Date.now()]. *)
Definition isCacheExpired (now : Z) (cached : CachedTool) : bool :=
  (now - timestamp cached >? ttl cached)%Z.

(** [ToolCacheManager.getTool]: [now] is the clock when the cache is
    consulted, [fetched] the clock when the fetched definition is
    stored. *)
Definition getTool (server : Server) (now fetched : Z)
    (name : string) (forceRefresh : bool) : Method State Tool :=
  (do s <- read;
   let cached := cache s !! name in
   let valid :=
     match cached with
     | Some cached =>
         if negb forceRefresh && negb (isCacheExpired now cached)
         then Some (tool cached) else None
     | None => None
     end in
   match valid with
   | Some t => ret t
   | None =>
       do t <- fetchToolFromServer server name;
       run modify (cache_set name {| tool := t; timestamp := fetched; ttl := ttl_of t |});
       ret t
   end)%method.

(** The entry [getTool] would answer from at time [now], if any. *)
Definition cached_valid (now : Z) (name : string) (s : State) : option Tool :=
  match cache s !! name with
  | Some cached => if isCacheExpired now cached then None else Some (tool cached)
  | None => None
  end.

End Client.

(** ** QualityResourceReader *)

Module Resources.

Import Js Client.

(** The reader's fields: its content cache, of a class the repository
    does not define ([Cache]), and the transmissions so far. *)
Record Reader (Cache : Type) : Type := {
  contentCache : Cache;
  transmitted : list Transmission
}.

Arguments contentCache {Cache} _.
Arguments transmitted {Cache} _.

(** The cache's two methods and the methods of the reader that the
    class calls and leaves out. *)
Record Helpers (Cache : Type) : Type := {
  cache_get : Cache -> string -> JValue;
  cache_set : Cache -> string -> JValue -> Z -> Cache;
  generateCacheKey : string -> string -> string;
  isContentCacheExpired : Z -> JValue -> bool;
  getContentCacheTTL : string -> Z;
  generateRequestId : list Transmission -> JValue;
  validateResourceContentResponse : RPCResponse -> Completion JValue;
  integrityEnabled : bool;
  verifyContent : string -> JValue -> Completion unit;
  handleReadError : Thrown -> string -> Thrown
}.

Arguments cache_get {Cache} _.
Arguments cache_set {Cache} _.
Arguments generateCacheKey {Cache} _.
Arguments isContentCacheExpired {Cache} _.
Arguments getContentCacheTTL {Cache} _.
Arguments generateRequestId {Cache} _.
Arguments validateResourceContentResponse {Cache} _.
Arguments integrityEnabled {Cache} _.
Arguments verifyContent {Cache} _.
Arguments handleReadError {Cache} _.

(** The request [readResource] builds for [uri]. *)
Definition read_request {Cache} (h : Helpers Cache) (uri : string) (r : Reader Cache)
    : RPCRequest :=
  {| jsonrpc := "2.0";
     id := generateRequestId h (transmitted r);
     method := "resources/read";
     params := JObj [("uri", JStr uri)] |}.

(** [cachedContent && !this.isContentCacheExpired(cachedContent)], at
    the clock [now]. *)
Definition cached_content {Cache} (h : Helpers Cache) (now : Z) (uri : string)
    (r : Reader Cache) : option JValue :=
  let cachedContent := cache_get h (contentCache r) (generateCacheKey h "read" uri) in
  if truthy cachedContent && negb (isContentCacheExpired h now cachedContent)
  then Some cachedContent else None.

(** The body of the [try] block, after the request is built. *)
Definition fetch_content {Cache} (h : Helpers Cache) (server : Server) (uri : string)
    (r : Reader Cache) : Completion JValue * Reader Cache :=
  let request := read_request h uri r in
  let sent := {| contentCache := contentCache r;
                 transmitted := transmitted r ++ [Request request] |} in
  match respond server (transmitted r) request with
  | Throw e => (Throw e, sent)
  | Normal response =>
      match validateResourceContentResponse h response with
      | Throw e => (Throw e, sent)
      | Normal content =>
          match (if integrityEnabled h then verifyContent h uri content else Normal tt) with
          | Throw e => (Throw e, sent)
          | Normal _ =>
              (Normal content,
               {| contentCache :=
                    cache_set h (contentCache r) (generateCacheKey h "read" uri) content
                      (getContentCacheTTL h uri);
                  transmitted := transmitted sent |})
          end
      end
  end.

(** [QualityResourceReader.readResource]. *)
Definition readResource {Cache} (h : Helpers Cache) (server : Server) (now : Z)
    (uri : string) : Method (Reader Cache) JValue :=
  fun r =>
    match cached_content h now uri r with
    | Some cachedContent => (Normal cachedContent, r)
    | None =>
        match fetch_content h server uri r with
        | (Throw error, r') => (Throw (handleReadError h error uri), r')
        | done => done
        end
    end.

End Resources.

(** ** QualityToolExecutor *)

Module Executor.

Import Js Schema Validator Client.

(** [ToolErrorHandler.handleExecutionError]: the code of the error
    object it builds. *)
Definition handleExecutionError (error : Thrown) : ToolError :=
  match error with
  | TimeoutError => EXECUTION_TIMEOUT
  | PermissionError _ => PERMISSION_DENIED
  | _ => EXECUTION_FAILED
  end.

(** The methods [callTool] calls on [this] that the class leaves out.
    Only [getToolDefinition] works on the client's state (it resolves
    the definition from the cache or the server); the others are
    functions of their arguments. *)
Record Helpers (Result : Type) : Type := {
  getToolDefinition : string -> Method State Tool;
  checkType : CheckType;
  generateRequestId : list Transmission -> JValue;
  sanitizeArguments : Entries -> JValue;
  processToolResponse : RPCResponse -> Tool -> Completion Result
}.

Arguments getToolDefinition {Result} _.
Arguments checkType {Result} _.
Arguments generateRequestId {Result} _.
Arguments sanitizeArguments {Result} _.
Arguments processToolResponse {Result} _.

(** A completion as a method that leaves the state alone. *)
Definition lift {S A} (c : Completion A) : Method S A := fun s => (c, s).

(** [QualityToolExecutor.callTool].  The race against the timeout
    promise is part of the server's answer: a call that times out is a
    request whose answer is [Throw TimeoutError]. *)
Definition callTool {Result : Type} (h : Helpers Result) (server : Server)
    (name : string) (args : Entries) : Method State Result :=
  (do tool <- getToolDefinition h name;
   let validation := validateArguments (checkType h) tool args in
   if negb (valid validation) then throw (ValidationError (errors validation))
   else
     do s <- read;
     let request :=
       {| jsonrpc := "2.0";
          id := generateRequestId h (sent s);
          method := "tools/call";
          params := JObj [("name", JStr (Schema.name tool));
                          ("arguments", sanitizeArguments h args)] |} in
     try_catch
       (do response <- session_request server request;
        lift (processToolResponse h response tool))
       (fun error => throw (Handled (handleExecutionError error))))%method.

(** The helpers of [h], with the tool definition resolved by the
    tool cache manager. *)
Definition resolving_from_cache {Result : Type} (h : Helpers Result) (server : Server)
    (now fetched : Z) : Helpers Result :=
  {| getToolDefinition := fun name => getTool server now fetched name false;
     checkType := checkType h;
     generateRequestId := generateRequestId h;
     sanitizeArguments := sanitizeArguments h;
     processToolResponse := processToolResponse h |}.

End Executor.

(** ** ToolAccessController *)

Module Access.

Record ExecutionContext : Type := {
  userId : string
}.

(** The checks the controller can run, in the order it ran them. *)
Inductive CheckKind : Type :=
| AccessCheck
| RateLimitCheck
| QuotaCheck.

(** The controller's fields: the permission map, whatever counters the
    rate limiter and the quota keep ([counters]), and the checks made
    so far. *)
Record Controller (C : Type) : Type := {
  permissionMap : gmap string (list string);
  counters : C;
  checked : list CheckKind
}.

Arguments permissionMap {C} _.
Arguments counters {C} _.
Arguments checked {C} _.

(** The methods the class calls and leaves out. *)
Record Helpers (C : Type) : Type := {
  getUserPermissions : string -> list string;
  checkRateLimit : string -> ExecutionContext -> C -> bool * C;
  checkResourceQuota : string -> ExecutionContext -> C -> bool * C
}.

Arguments getUserPermissions {C} _.
Arguments checkRateLimit {C} _.
Arguments checkResourceQuota {C} _.

Definition note {C} (check : CheckKind) (s : Controller C) : Controller C :=
  {| permissionMap := permissionMap s; counters := counters s;
     checked := checked s ++ [check] |}.

Definition with_counters {C} (c : C) (s : Controller C) : Controller C :=
  {| permissionMap := permissionMap s; counters := c; checked := checked s |}.

(** [ToolAccessController.checkToolAccess]. *)
Definition checkToolAccess {C} (h : Helpers C) (toolName : string)
    (context : ExecutionContext) : Method (Controller C) bool :=
  fun s =>
    let requiredPermissions := default [] (permissionMap s !! toolName) in
    let s := note AccessCheck s in
    if (length requiredPermissions =? 0)%nat then (Normal true, s)
    else
      let userPermissions := getUserPermissions h (userId context) in
      (Normal (forallb (fun perm => existsb (String.eqb perm) userPermissions)
                 requiredPermissions), s).

Definition rateLimit {C} (h : Helpers C) (toolName : string)
    (context : ExecutionContext) : Method (Controller C) bool :=
  fun s =>
    let '(limited, c) := checkRateLimit h toolName context (counters s) in
    (Normal limited, note RateLimitCheck (with_counters c s)).

Definition resourceQuota {C} (h : Helpers C) (toolName : string)
    (context : ExecutionContext) : Method (Controller C) bool :=
  fun s =>
    let '(hasQuota, c) := checkResourceQuota h toolName context (counters s) in
    (Normal hasQuota, note QuotaCheck (with_counters c s)).

(** [ToolAccessController.validateToolExecution]. *)
Definition validateToolExecution {C} (h : Helpers C) (toolName : string)
    (args : Js.Entries) (context : ExecutionContext) : Method (Controller C) unit :=
  (do hasAccess <- checkToolAccess h toolName context;
   if negb hasAccess then throw (PermissionError toolName)
   else
     do isRateLimited <- rateLimit h toolName context;
     if isRateLimited then throw (RateLimitError toolName)
     else
       do hasQuota <- resourceQuota h toolName context;
       if negb hasQuota then throw (QuotaError toolName)
       else ret tt)%method.

(** What each check answers when it is run on its own: the access
    check on the state [s], the rate limiter on the counters of [s], the
    quota on the counters the rate limiter leaves. *)
Definition access_granted {C} (h : Helpers C) (toolName : string)
    (context : ExecutionContext) (s : Controller C) : bool :=
  match fst (checkToolAccess h toolName context s) with
  | Normal b => b
  | Throw _ => false
  end.

Definition rate_limited {C} (h : Helpers C) (toolName : string)
    (context : ExecutionContext) (s : Controller C) : bool * C :=
  checkRateLimit h toolName context (counters s).

Definition quota_left {C} (h : Helpers C) (toolName : string)
    (context : ExecutionContext) (s : Controller C) : bool * C :=
  checkResourceQuota h toolName context (snd (rate_limited h toolName context s)).

End Access.

(** ** MessageHandler *)

Module Codec.

Import Js.

(** [message.k]: reading a property of [null] or [undefined] throws, a
    primitive or an array has no such property. *)
Definition field (message : JValue) (k : string) : Completion JValue :=
  match message with
  | JUndefined | JNull => Throw TypeError
  | JObj fields => Normal (get fields k)
  | _ => Normal JUndefined
  end.

(** [MessageHandler.validateMessage]. *)
Definition validateMessage (message : JValue) : Completion unit :=
  match field message "jsonrpc" with
  | Normal v =>
      if negb (same_value_zero v (JStr "2.0"))
      then Throw (Error "Invalid JSON-RPC version")
      else Normal tt
  | Throw e => Throw e
  end.

(** [MessageHandler.deserialize]; [parse] is [JSON.parse]. *)
Definition deserialize (parse : string -> Completion JValue) (data : string)
    : Completion JValue :=
  match parse data with
  | Normal message =>
      match validateMessage message with
      | Normal _ => Normal message
      | Throw e => Throw e
      end
  | Throw e => Throw e
  end.

(** The field is present in the message. *)
Definition present (message : JValue) (k : string) : bool :=
  match message with
  | JObj fields => match get fields k with JUndefined => false | _ => true end
  | _ => false
  end.

(** The envelope invariant in the specification's words: a message is
    a request (a method, and neither result nor error) or a response
    (a result or an error, not both, and no method). *)
Definition envelope_invariant (message : JValue) : bool :=
  let m := present message "method" in
  let r := present message "result" in
  let e := present message "error" in
  (m && negb r && negb e) || (negb m && xorb r e).

(** The text
    [{ jsonrpc: 2.0, id: 1, method: ping, result: {} }], decoded. *)
Definition request_with_result : JValue :=
  JObj [("jsonrpc", JStr "2.0"); ("id", JNum 1); ("method", JStr "ping");
        ("result", JObj [])].

End Codec.

(** ** ConnectionManager *)

Module Connection.

Inductive ConnectionState : Type :=
| DISCONNECTED
| CONNECTING
| CONNECTED
| ERROR
| RECONNECTING.

(** The fields of the manager, and every value assigned to [state]
    since it was created, oldest first. *)
Record ConnectionManager : Type := {
  state : ConnectionState;
  reconnectAttempts : Z;
  assigned : list ConnectionState
}.

Definition maxReconnectAttempts : Z := 5.

(** [new ConnectionManager()]. *)
Definition initial : ConnectionManager :=
  {| state := DISCONNECTED; reconnectAttempts := 0; assigned := [] |}.

(** [this.state = s]. *)
Definition set_state (s : ConnectionState) (m : ConnectionManager) : ConnectionManager :=
  {| state := s; reconnectAttempts := reconnectAttempts m; assigned := assigned m ++ [s] |}.

(** [this.reconnectAttempts = n]. *)
Definition set_attempts (n : Z) (m : ConnectionManager) : ConnectionManager :=
  {| state := state m; reconnectAttempts := n; assigned := assigned m |}.

Record ConnectionConfig : Type := {
  transport : string
}.

(** The methods the class calls and leaves out: the three ways to open
    a channel, and the error handler, which works on the manager. *)
Record Helpers : Type := {
  connectStdio : ConnectionConfig -> Completion unit;
  connectSSE : ConnectionConfig -> Completion unit;
  connectWebSocket : ConnectionConfig -> Completion unit;
  handleConnectionError : Thrown -> ConnectionManager -> ConnectionManager
}.

(** [ConnectionManager.establishConnection]: a transport the switch
    does not name falls through it. *)
Definition establishConnection (h : Helpers) (config : ConnectionConfig) : Completion unit :=
  if String.eqb (transport config) "stdio" then connectStdio h config
  else if String.eqb (transport config) "sse" then connectSSE h config
  else if String.eqb (transport config) "websocket" then connectWebSocket h config
  else Normal tt.

(** [ConnectionManager.connect]. *)
Definition connect (h : Helpers) (config : ConnectionConfig) (m : ConnectionManager)
    : ConnectionManager :=
  let m := set_state CONNECTING m in
  match establishConnection h config with
  | Normal _ => set_attempts 0 (set_state CONNECTED m)
  | Throw error => handleConnectionError h error m
  end.

(** The connection states the specification names, and the path it
    gives a successful connect after the first state. *)
Inductive SpecState : Type :=
| Disconnected
| Connecting
| Negotiating
| Ready
| Degraded
| Closing
| Closed.

Definition spec_connect_path : list SpecState := [Connecting; Negotiating; Ready].

(** Helpers whose channels always open, and whose error handler sets
    ERROR. *)
Definition opening : Helpers :=
  {| connectStdio := fun _ => Normal tt;
     connectSSE := fun _ => Normal tt;
     connectWebSocket := fun _ => Normal tt;
     handleConnectionError := fun _ m => set_state ERROR m |}.

Definition over_stdio : ConnectionConfig := {| transport := "stdio" |}.

End Connection.

(** ** HeartbeatManager *)

Module Heartbeat.

Import Connection.

(** The fields of the manager, the [Date.now()] of every probe sent
    (the probe's id is [heartbeat-] followed by it), and what the
    failure handler works on: a miss counter, the value of
    [lastHeartbeatTime] it counts from, and the connection state. *)
Record HeartbeatManager : Type := {
  lastHeartbeatTime : Z;
  probes : list Z;
  missCount : nat;
  countedFrom : Z;
  connection : SpecState
}.

Definition send_probe (now : Z) (m : HeartbeatManager) : HeartbeatManager :=
  {| lastHeartbeatTime := lastHeartbeatTime m; probes := probes m ++ [now];
     missCount := missCount m; countedFrom := countedFrom m;
     connection := connection m |}.

(** [this.lastHeartbeatTime = now]. *)
Definition set_last (now : Z) (m : HeartbeatManager) : HeartbeatManager :=
  {| lastHeartbeatTime := now; probes := probes m;
     missCount := missCount m; countedFrom := countedFrom m;
     connection := connection m |}.

(** One run of the callback [startHeartbeat] gives [setInterval]:
    [answered] tells whether the ping was answered, [sent] and
    [received] are the clock when the probe is built and when its
    answer arrives. *)
Definition beat (handleHeartbeatFailure : HeartbeatManager -> HeartbeatManager)
    (answered : bool) (sent received : Z) (m : HeartbeatManager) : HeartbeatManager :=
  let m := send_probe sent m in
  if answered then set_last received m else handleHeartbeatFailure m.

(** Modelled from the spec: [handleHeartbeatFailure], the miss counter,
    its threshold and the Degraded state are not in the repository.
    The specification says: a response must arrive within a timeout or
    a miss counter increments; exceeding a threshold forces Degraded,
    and the misses it counts are consecutive ones.  The only trace an
    answered probe leaves in the source is [lastHeartbeatTime], so the
    handler counts on while [lastHeartbeatTime] is the one it counted
    from, and starts again at one when it has moved. *)
Definition handleHeartbeatFailure (threshold : nat) (m : HeartbeatManager)
    : HeartbeatManager :=
  let misses :=
    if (lastHeartbeatTime m =? countedFrom m)%Z then S (missCount m) else 1%nat in
  {| lastHeartbeatTime := lastHeartbeatTime m; probes := probes m;
     missCount := misses; countedFrom := lastHeartbeatTime m;
     connection := if (threshold <? misses)%nat then Degraded else connection m |}.

(** The interval firing once for each entry of [outcomes]: whether the
    ping was answered, and the two clock readings. *)
Fixpoint beats (threshold : nat) (outcomes : list (bool * Z * Z)) (m : HeartbeatManager)
    : HeartbeatManager :=
  match outcomes with
  | [] => m
  | (answered, sent, received) :: rest =>
      beats threshold rest (beat (handleHeartbeatFailure threshold) answered sent received m)
  end.

(** The misses counted so far without an answered probe between
    them. *)
Definition consecutive_misses (m : HeartbeatManager) : nat :=
  if (lastHeartbeatTime m =? countedFrom m)%Z then missCount m else 0%nat.

(** The same count read off the outcomes: the length of the run of
    misses they end with, continuing a run of [before]. *)
Fixpoint trailing_misses (before : nat) (outcomes : list (bool * Z * Z)) : nat :=
  match outcomes with
  | [] => before
  | (answered, _, _) :: rest => trailing_misses (if answered then 0%nat else S before) rest
  end.

(** The answers arrive at clock readings that grow, all after [t]. *)
Fixpoint clock_grows (t : Z) (outcomes : list (bool * Z * Z)) : Prop :=
  match outcomes with
  | [] => True
  | (answered, _, received) :: rest =>
      if answered then (t < received)%Z /\ clock_grows received rest
      else clock_grows t rest
  end.

End Heartbeat.

(** ** MessageBatcher *)

Module Batcher.

Import Js Client.

Definition batchSize : nat := 10.

(** The fields of the batcher, the timeouts set and not yet fired, and
    the batch requests handed to [transport.send], oldest first.  [B]
    is what [createBatchRequest] builds. *)
Record MessageBatcher (B : Type) : Type := {
  batch : list RPCRequest;
  timers : nat;
  wire : list B
}.

Arguments batch {B} _.
Arguments timers {B} _.
Arguments wire {B} _.

Definition initial {B} : MessageBatcher B := {| batch := []; timers := 0; wire := [] |}.

(** The methods the class calls and leaves out. *)
Record Helpers (B : Type) : Type := {
  createBatchRequest : list RPCRequest -> B;
  transport_send : B -> Completion JValue;
  processBatchResponse : JValue -> B -> RPCResponse;
  handleBatchError : Thrown -> B -> Thrown
}.

Arguments createBatchRequest {B} _.
Arguments transport_send {B} _.
Arguments processBatchResponse {B} _.
Arguments handleBatchError {B} _.

(** [MessageBatcher.flushBatch]. *)
Definition flushBatch {B} (h : Helpers B) : Method (MessageBatcher B) RPCResponse :=
  fun s =>
    let batchRequest := createBatchRequest h (batch s) in
    let s := {| batch := []; timers := timers s; wire := wire s ++ [batchRequest] |} in
    match transport_send h batchRequest with
    | Normal response => (Normal (processBatchResponse h response batchRequest), s)
    | Throw error => (Throw (handleBatchError h error batchRequest), s)
    end.

(** [MessageBatcher.sendMessage].  The promise it returns resolves
    with the outcome of [flushBatch] when the batch is full, and with
    [undefined] ([None]) otherwise: the method ends without a return
    statement. *)
Definition sendMessage {B} (h : Helpers B) (message : RPCRequest)
    : Method (MessageBatcher B) (option RPCResponse) :=
  fun s =>
    let s := {| batch := batch s ++ [message]; timers := timers s; wire := wire s |} in
    if (batchSize <=? length (batch s))%nat then
      match flushBatch h s with
      | (Normal response, s) => (Normal (Some response), s)
      | (Throw e, s) => (Throw e, s)
      end
    else if (length (batch s) =? 1)%nat then
      (Normal None, {| batch := batch s; timers := S (timers s); wire := wire s |})
    else (Normal None, s).

(** A timeout set by [sendMessage] fires: it calls [flushBatch]. *)
Definition timeout {B} (h : Helpers B) (s : MessageBatcher B) : MessageBatcher B :=
  match timers s with
  | O => s
  | S n => snd (flushBatch h {| batch := batch s; timers := n; wire := wire s |})
  end.

(** [messages] are sent one after the other within the window, from
    the state [s]. *)
Fixpoint sendAll {B} (h : Helpers B) (messages : list RPCRequest) (s : MessageBatcher B)
    : list (Completion (option RPCResponse)) * MessageBatcher B :=
  match messages with
  | [] => ([], s)
  | message :: rest =>
      let '(outcome, s) := sendMessage h message s in
      let '(outcomes, s) := sendAll h rest s in
      (outcome :: outcomes, s)
  end.

(** A window: the messages arrive, then every timeout set fires. *)
Fixpoint fire {B} (h : Helpers B) (n : nat) (s : MessageBatcher B) : MessageBatcher B :=
  match n with
  | O => s
  | S n => fire h n (timeout h s)
  end.

Definition window {B} (h : Helpers B) (messages : list RPCRequest) (s : MessageBatcher B)
    : list (Completion (option RPCResponse)) * MessageBatcher B :=
  let '(outcomes, s) := sendAll h messages s in
  (outcomes, fire h (timers s) s).

(** The request with the given id. *)
Definition ping (n : nat) : RPCRequest :=
  {| jsonrpc := "2.0"; id := JNum (Z.of_nat n); method := "ping"; params := JObj [] |}.

(** Ten requests, as many as [batchSize]. *)
Definition ten_requests : list RPCRequest := map ping (seq 1 10).

End Batcher.

(** ** An example: the operation of the specification *)

Module Example.

Import Js Schema Validator Client Executor.

(** A runtime in which nothing but a number converts to a number and
    every string is a pattern that matches everything. *)
Definition plain_runtime : Runtime :=
  {| coerce_number := fun _ => None;
     coerce_string := fun _ => "";
     regexp_valid := fun _ => true;
     regexp_test := fun _ _ => true |}.

(** A [checkType] that answers with the first message the prompt
    validator has for the argument. *)
Definition firstError (rt : Runtime) : CheckType :=
  fun param value paramSchema =>
    match validateParameter rt param value paramSchema with
    | Normal errs => head errs
    | Throw _ => head (type_errors param value paramSchema)
    end.

(** The operation of the specification's example: [a] is a number and
    [b] is one of [x] and [y]. *)
Definition number_schema : JSONSchema :=
  {| type := Some "number"; enum := None; minimum := None; maximum := None;
     minLength := None; maxLength := None; pattern := None |}.

Definition xy_schema : JSONSchema :=
  {| type := Some "string"; enum := Some [JStr "x"; JStr "y"]; minimum := None;
     maximum := None; minLength := None; maxLength := None; pattern := None |}.

Definition example_tool : Tool :=
  {| name := "example";
     inputSchema :=
       {| required := Some ["a"; "b"];
          properties := Some (<["a" := number_schema]> (<["b" := xy_schema]> ∅));
          additionalProperties := false |};
     static := false |}.

Definition example_arguments : Entries :=
  [("a", JStr "not-a-number"); ("b", JStr "z")].

Definition example_helpers : Helpers JValue :=
  {| getToolDefinition := fun _ => ret example_tool;
     checkType := firstError plain_runtime;
     generateRequestId := fun sent => JNum (Z.of_nat (length sent));
     sanitizeArguments := fun args => JObj args;
     processToolResponse := fun response _ => Normal (default JNull (result response)) |}.

Definition silent_server : Server :=
  {| respond := fun _ _ => Throw TimeoutError;
     definition := fun _ _ => Normal example_tool |}.

Definition fresh : State := {| cache := ∅; sent := [] |}.


Definition short_text_schema : JSONSchema :=
  {| type := Some "string"; enum := None; minimum := None; maximum := None;
     minLength := Some 1%Z; maxLength := None; pattern := None |}.

Definition text_prompt : PromptDefinition :=
  {| prompt_name := "text";
     parametersSchema :=
       Some {| required := Some ["a"];
               properties := Some (<["a" := short_text_schema]> ∅);
               additionalProperties := false |};
     template := "{{a}}" |}.

End Example.

(** ** BatchToolExecutor, BatchPromptProcessor and BatchResourceReader *)

Module Batches.

(** [requests.slice(i, j)]. *)
Definition slice {A} (i j : nat) (requests : list A) : list A :=
  take (j - i) (drop i requests).

(** The loop of [createBatches], from the index [i] on, pushing onto
    [batches].  [turns] bounds the turns of the loop; it makes at most
    one for each request when [batchSize] is not zero. *)
Fixpoint createBatches_from {A} (turns batchSize : nat) (requests : list A)
    (i : nat) (batches : list (list A)) : list (list A) :=
  match turns with
  | O => batches
  | S turns =>
      if (i <? length requests)%nat then
        createBatches_from turns batchSize requests (i + batchSize)
          (batches ++ [slice i (i + batchSize) requests])
      else batches
  end.

(** [createBatches], for a class whose [batchSize] field is
    [batchSize]. *)
Definition createBatches {A} (batchSize : nat) (requests : list A) : list (list A) :=
  createBatches_from (length requests) batchSize requests 0 [].

(** [BatchToolExecutor] and [BatchPromptProcessor] batch by five,
    [BatchResourceReader] by ten. *)
Definition toolBatchSize : nat := 5.
Definition promptBatchSize : nat := 5.
Definition resourceBatchSize : nat := 10.

(** [BatchToolExecutor.executeBatch].  [Promise.allSettled] gives the
    outcomes of a batch in the order of its requests, whatever the
    order they settle in; [settled] is the outcome of [executeSingle]
    for a request, and [processBatchResults] is called by the class
    and not defined by it. *)
Definition executeBatch {Req Res Out} (settled : Req -> Completion Res)
    (processBatchResults : list (Completion Res) -> list Out)
    (requests : list Req) : list Out :=
  fold_left
    (fun results batch => results ++ processBatchResults (map settled batch))
    (createBatches toolBatchSize requests) [].

(** What the loop keeps: the batches made so far are full. *)
Definition full {A} (batchSize : nat) (batches : list (list A)) : Prop :=
  Forall (fun batch => length batch = batchSize) batches.

(** What is asked of the result: it splits the requests in their
    order into batches that are not empty and not larger than
    [batchSize], all full except possibly the last. *)
Definition splits {A} (batchSize : nat) (requests : list A) (batches : list (list A)) : Prop :=
  concat batches = requests
  /\ (forall k batch, batches !! k = Some batch -> 0 < length batch <= batchSize)
  /\ (forall k batch, batches !! k = Some batch -> S k < length batches ->
        length batch = batchSize).

End Batches.

(** ** Runs of the tool cache manager *)

Module CacheRuns.

Import Js Schema Client.

(** One call of [getTool]: its arguments and the two clock readings. *)
Record Read : Type := {
  read_name : string;
  read_forceRefresh : bool;
  read_now : Z;
  read_fetched : Z
}.

(** The calls of [reads] one after the other; a call that throws
    leaves the state it reached to the next call. *)
Fixpoint getTools (server : Server) (reads : list Read) (s : State) : State :=
  match reads with
  | [] => s
  | r :: rest =>
      getTools server rest
        (snd (getTool server (read_now r) (read_fetched r) (read_name r)
                (read_forceRefresh r) s))
  end.

(** Every entry of the cache carries the time to live of its tool's
    class and was fetched from the server under its key. *)
Definition entries_fetched (s : State) : Prop :=
  forall name entry, cache s !! name = Some entry ->
    ttl entry = ttl_of (tool entry) /\ In (FetchTool name) (sent s).

End CacheRuns.

(** ** MessageHandler.serialize *)

Module Serializer.

Import Js Codec.

(** [MessageHandler.serialize]; [stringify] is [JSON.stringify]. *)
Definition serialize (stringify : JValue -> string) (message : JValue) : string :=
  stringify message.

(** The message is an object whose [jsonrpc] field is the string
    [2.0]. *)
Definition versioned (message : JValue) : Prop :=
  exists fields, message = JObj fields /\ get fields "jsonrpc" = JStr "2.0".

End Serializer.

(** ** HeartbeatManager.startHeartbeat and stopHeartbeat *)

Module Intervals.

(** The field [intervalId], and the host's timers: the intervals set
    and not cleared, oldest first, and the handle the next
    [setInterval] returns.  Handles are positive numbers, so a handle
    is truthy and is never returned twice. *)
Record Timers : Type := {
  intervalId : option nat;
  running : list nat;
  next : nat
}.

(** [new HeartbeatManager()], before any timer is set. *)
Definition initial : Timers := {| intervalId := None; running := []; next := 1 |}.

(** [startHeartbeat]: [this.intervalId = setInterval(...)]. *)
Definition startHeartbeat (t : Timers) : Timers :=
  {| intervalId := Some (next t); running := running t ++ [next t]; next := S (next t) |}.

(** [stopHeartbeat]: [if (this.intervalId) clearInterval(this.intervalId)]. *)
Definition stopHeartbeat (t : Timers) : Timers :=
  match intervalId t with
  | Some handle =>
      {| intervalId := intervalId t;
         running := List.filter (fun r => negb (r =? handle)%nat) (running t);
         next := next t |}
  | None => t
  end.

(** [startHeartbeat] called [n] times. *)
Fixpoint starts (n : nat) (t : Timers) : Timers :=
  match n with
  | O => t
  | S n => startHeartbeat (starts n t)
  end.

End Intervals.

(** ** PromptContentSanitizer.sanitizePromptContent *)

Module PromptContent.

Import Sanitizer.

(** The two sanitizers registered beside the default one.  The class
    defines [sanitizeHTML] by three regular expressions and calls
    [sanitizeJavaScript] without defining it; both are left open
    here. *)
Record Registered : Type := {
  sanitizeHTML : string -> string;
  sanitizeJavaScript : string -> string
}.

(** [sanitizePromptContent]: the sanitizer registered for the MIME
    type, or else the one registered as [default], which is
    [sanitizeText]. *)
Definition sanitizePromptContent (r : Registered) (content mimeType : string) : string :=
  if String.eqb mimeType "text/html" then sanitizeHTML r content
  else if String.eqb mimeType "application/javascript" then sanitizeJavaScript r content
  else sanitizeText content.

(** A list that does not end with white space. *)
Definition ends_clean (l : list ascii) : Prop :=
  forall front c, l = front ++ [c] -> white_space c = false.

End PromptContent.

(** ** What the batcher has put on the wire *)

Module BatcherRuns.

Import Client Batcher.

(** The batcher has sent the messages [done] so far: the batches on
    the wire, put end to end, and then the batch in the making are
    [done]; the batches on the wire are full, the batch in the making
    is not, and a timeout is pending while it is not empty. *)
Definition carried {B} (h : Helpers B) (done : list RPCRequest) (s : MessageBatcher B)
    : Prop :=
  exists batches,
    wire s = map (createBatchRequest h) batches
    /\ concat batches ++ batch s = done
    /\ Forall (fun b => length b = batchSize) batches
    /\ length (batch s) < batchSize
    /\ (batch s <> [] -> 0 < timers s).

End BatcherRuns.

(** ** QualityToolManager *)

Module Discovery.

Import Js Client.

(** The manager's fields, with a cache of a shape the class leaves
    open ([Cache]), and the transmissions so far. *)
Record Manager (Cache : Type) : Type := {
  toolsCache : Cache;
  lastDiscoveryTime : Z;
  transmitted : list Transmission
}.

Arguments toolsCache {Cache} _.
Arguments lastDiscoveryTime {Cache} _.
Arguments transmitted {Cache} _.

Record ListToolsResult : Type := {
  tools : list JValue;
  nextCursor : JValue;
  prevCursor : JValue
}.

(** The methods the class calls and leaves out. *)
Record Helpers (Cache : Type) : Type := {
  isCacheValid : Z -> Manager Cache -> bool;
  getCachedTools : Manager Cache -> ListToolsResult;
  updateToolsCache : Cache -> list JValue -> Cache;
  validateToolDefinition : JValue -> Completion unit;
  generateRequestId : list Transmission -> JValue;
  handleDiscoveryError : Thrown -> Thrown
}.

Arguments isCacheValid {Cache} _.
Arguments getCachedTools {Cache} _.
Arguments updateToolsCache {Cache} _.
Arguments validateToolDefinition {Cache} _.
Arguments generateRequestId {Cache} _.
Arguments handleDiscoveryError {Cache} _.

(** [r.k] for a value [r] that is neither null nor undefined. *)
Definition prop (r : JValue) (k : string) : JValue :=
  match r with
  | JObj fields => get fields k
  | _ => JUndefined
  end.

(** The loop over the tools: the first definition that does not
    validate throws. *)
Fixpoint validateAll (validate : JValue -> Completion unit) (tools : list JValue)
    : Completion unit :=
  match tools with
  | [] => Normal tt
  | tool :: rest =>
      match validate tool with
      | Normal _ => validateAll validate rest
      | Throw e => Throw e
      end
  end.

Definition invalid_format : Thrown := Error "Invalid tools/list response format".

(** [QualityToolManager.validateListToolsResponse]. *)
Definition validateListToolsResponse {Cache} (h : Helpers Cache) (response : RPCResponse)
    : Completion ListToolsResult :=
  match result response with
  | None => Throw invalid_format
  | Some r =>
      if negb (truthy r) then Throw invalid_format
      else
        match prop r "tools" with
        | JArr tools =>
            match validateAll (validateToolDefinition h) tools with
            | Normal _ =>
                Normal {| tools := tools; nextCursor := prop r "nextCursor";
                          prevCursor := prop r "prevCursor" |}
            | Throw e => Throw e
            end
        | _ => Throw invalid_format
        end
  end.

(** [!cursor]: no cursor, or the empty string. *)
Definition no_cursor (cursor : option string) : bool :=
  match cursor with
  | Some c => String.eqb c ""
  | None => true
  end.

(** The request [listTools] builds. *)
Definition list_request {Cache} (h : Helpers Cache) (cursor : option string)
    (m : Manager Cache) : RPCRequest :=
  {| jsonrpc := "2.0";
     id := generateRequestId h (transmitted m);
     method := "tools/list";
     params := match cursor with
               | Some c => if String.eqb c "" then JObj [] else JObj [("cursor", JStr c)]
               | None => JObj []
               end |}.

(** [QualityToolManager.listTools]: [now] is the clock when the cache
    is consulted, [updated] the clock when the answer is stored. *)
Definition listTools {Cache} (h : Helpers Cache) (server : Server) (now updated : Z)
    (cursor : option string) : Method (Manager Cache) ListToolsResult :=
  fun m =>
    if isCacheValid h now m && no_cursor cursor then (Normal (getCachedTools h m), m)
    else
      let request := list_request h cursor m in
      let sent := {| toolsCache := toolsCache m; lastDiscoveryTime := lastDiscoveryTime m;
                     transmitted := transmitted m ++ [Request request] |} in
      match respond server (transmitted m) request with
      | Throw e => (Throw (handleDiscoveryError h e), sent)
      | Normal response =>
          match validateListToolsResponse h response with
          | Throw e => (Throw (handleDiscoveryError h e), sent)
          | Normal result =>
              (Normal result,
               {| toolsCache := updateToolsCache h (toolsCache m) (tools result);
                  lastDiscoveryTime := updated;
                  transmitted := transmitted sent |})
          end
      end.

(** The response carries an array of tools under a truthy result. *)
Definition well_formed (response : RPCResponse) : Prop :=
  exists r tools, result response = Some r /\ truthy r = true
    /\ prop r "tools" = JArr tools.

End Discovery.

(** ** ResourceTemplateHandler.getTemplate *)

Module Templates.

(** The handler's template cache and every call of [fetchTemplate] so
    far, oldest first, each with whether it returned a template.  [T]
    is the type of a template. *)
Record Handler (T : Type) : Type := {
  templateCache : gmap string T;
  fetches : list (string * bool)
}.

Arguments templateCache {T} _.
Arguments fetches {T} _.

Definition initial {T} : Handler T := {| templateCache := ∅; fetches := [] |}.

(** [ResourceTemplateHandler.getTemplate]; [fetchTemplate], which the
    class does not define, answers given the fetches made before. *)
Definition getTemplate {T} (fetchTemplate : list (string * bool) -> string -> Completion T)
    (templateUri : string) : Method (Handler T) T :=
  fun s =>
    match templateCache s !! templateUri with
    | Some cached => (Normal cached, s)
    | None =>
        match fetchTemplate (fetches s) templateUri with
        | Normal template =>
            (Normal template,
             {| templateCache := <[templateUri := template]> (templateCache s);
                fetches := fetches s ++ [(templateUri, true)] |})
        | Throw e =>
            (Throw e,
             {| templateCache := templateCache s;
                fetches := fetches s ++ [(templateUri, false)] |})
        end
    end.

(** The calls of [uris] one after the other. *)
Fixpoint getTemplates {T} (fetchTemplate : list (string * bool) -> string -> Completion T)
    (uris : list string) (s : Handler T) : Handler T :=
  match uris with
  | [] => s
  | uri :: rest => getTemplates fetchTemplate rest (snd (getTemplate fetchTemplate uri s))
  end.

(** The number of fetches of [uri] that returned a template. *)
Definition fetched_times (uri : string) (log : list (string * bool)) : nat :=
  length (List.filter (fun f => String.eqb (fst f) uri && snd f) log).

(** A template is cached exactly when a fetch of its uri returned, and
    no uri was fetched with success twice. *)
Definition fetched_once {T} (s : Handler T) : Prop :=
  forall uri,
    fetched_times uri (fetches s)
    = match templateCache s !! uri with Some _ => 1 | None => 0 end.

End Templates.

(** ** Filling a template: the loop of renderPrompt and processTemplate *)

Module Template.

Import Js.

(** [s.startsWith(search)]. *)
Fixpoint starts_with (search s : string) : bool :=
  match search, s with
  | EmptyString, _ => true
  | String a search', String b s' => Ascii.eqb a b && starts_with search' s'
  | String _ _, EmptyString => false
  end.

(** [s] without its first [n] characters. *)
Fixpoint drop_chars (n : nat) (s : string) : string :=
  match n, s with
  | O, _ => s
  | S n, String _ s' => drop_chars n s'
  | S _, EmptyString => EmptyString
  end.

(** The first occurrence of [search] in [s]: what is before it and
    what is after it. *)
Fixpoint split_at_first (search s : string) : option (string * string) :=
  if starts_with search s then Some (EmptyString, drop_chars (String.length search) s)
  else
    match s with
    | EmptyString => None
    | String c s' =>
        match split_at_first search s' with
        | Some (before, after) => Some (String c before, after)
        | None => None
        end
    end.

(** [s.includes(search)]. *)
Definition includes (search s : string) : bool :=
  match split_at_first search s with
  | Some _ => true
  | None => false
  end.

Definition DOLLAR : ascii := ascii_of_nat 36.

(** The text a replacement string stands for when the pattern is a
    string: two dollars are one dollar, dollar-ampersand is the match,
    dollar-backquote what is before it, dollar-quote what is after it,
    and any other dollar is itself. *)
Fixpoint substitution (matched before after replacement : string) : string :=
  match replacement with
  | EmptyString => EmptyString
  | String c rest =>
      if Ascii.eqb c DOLLAR then
        match rest with
        | String d rest' =>
            if Ascii.eqb d DOLLAR then String DOLLAR (substitution matched before after rest')
            else if Ascii.eqb d (ascii_of_nat 38)
            then matched +:+ substitution matched before after rest'
            else if Ascii.eqb d (ascii_of_nat 96)
            then before +:+ substitution matched before after rest'
            else if Ascii.eqb d (ascii_of_nat 39)
            then after +:+ substitution matched before after rest'
            else String c (substitution matched before after rest)
        | EmptyString => String c EmptyString
        end
      else String c (substitution matched before after rest)
  end.

(** [s.replace(search, replacement)] for a string [search]: the first
    occurrence only. *)
Definition replace (search replacement s : string) : string :=
  match split_at_first search s with
  | Some (before, after) =>
      before +:+ substitution search before after replacement +:+ after
  | None => s
  end.

(** One turn of the loop: [placeholder_of] builds the placeholder of a
    key and [value_of] the text that replaces it. *)
Definition fill_one (placeholder_of : string -> string) (value_of : JValue -> string)
    (content : string) (entry : string * JValue) : string :=
  let '(key, value) := entry in
  let placeholder := placeholder_of key in
  if includes placeholder content then replace placeholder (value_of value) content
  else content.

(** The loop over [Object.entries(params)]. *)
Definition fill (placeholder_of : string -> string) (value_of : JValue -> string)
    (template : string) (params : Entries) : string :=
  fold_left (fill_one placeholder_of value_of) params template.

(** The placeholders of [renderPrompt] (the key in double braces) and
    of [processTemplate] (the key in braces). *)
Definition double_braces (key : string) : string := "{{" +:+ key +:+ "}}".
Definition braces (key : string) : string := "{" +:+ key +:+ "}".

(** The loop of [QualityPromptRetriever.renderPrompt];
    [sanitizePromptValue] is called by the class and not defined by
    it. *)
Definition renderContent (sanitizePromptValue : JValue -> string)
    (template : string) (params : Entries) : string :=
  fill double_braces sanitizePromptValue template params.

(** The loop of [ResourceTemplateHandler.processTemplate]. *)
Definition renderUri (rt : Runtime) (encodeURIComponent : string -> string)
    (pattern : string) (parameters : Entries) : string :=
  fill braces (fun value => encodeURIComponent (to_string rt value)) pattern parameters.

(** The text holds no dollar sign. *)
Fixpoint plain (s : string) : bool :=
  match s with
  | EmptyString => true
  | String c rest => negb (Ascii.eqb c DOLLAR) && plain rest
  end.

End Template.

(** ** More examples *)

Module Samples.

Import Js Schema Validator.

(** A prompt with one parameter declared as an integer. *)
Definition integer_schema : JSONSchema :=
  {| type := Some "integer"; enum := None; minimum := Some 0%Z; maximum := None;
     minLength := None; maxLength := None; pattern := None |}.

Definition counting_schema : ObjectSchema :=
  {| required := Some ["count"];
     properties := Some (<["count" := integer_schema]> ∅);
     additionalProperties := false |}.

Definition counting_prompt : PromptDefinition :=
  {| prompt_name := "counting";
     parametersSchema := Some counting_schema;
     template := "{{count}} items" |}.

(** A greeting that names its parameter twice. *)
Definition greeting_before : string := "Hello ".
Definition greeting_after : string := "! Bye {{name}}".

(** A tool that declares one parameter, the string [b]. *)
Definition string_schema : JSONSchema :=
  {| type := Some "string"; enum := None; minimum := None; maximum := None;
     minLength := None; maxLength := None; pattern := None |}.

Definition labelled_tool : Tool :=
  {| name := "label";
     inputSchema :=
       {| required := None;
          properties := Some (<["b" := string_schema]> ∅);
          additionalProperties := false |};
     static := false |}.

(** A tool that requires a parameter named [toString] and declares no
    properties. *)
Definition describing_tool : Tool :=
  {| name := "describe";
     inputSchema :=
       {| required := Some ["toString"];
          properties := Some ∅;
          additionalProperties := false |};
     static := false |}.

End Samples.

(** * Part II: lemmas *)

(** ** The sanitizers *)

Section SanitizerFacts.

Import Js Schema Sanitizer.

Lemma filter_safe_all (l : list ascii) :
  Forall (fun c => unsafe_char c = false) (List.filter safe l).
Proof.
  induction l as [|c l IH]; simpl; [constructor|].
  unfold safe at 1. destruct (unsafe_char c) eqn:E; simpl; [exact IH|].
  constructor; assumption.
Qed.

Lemma filter_safe_id (l : list ascii) :
  Forall (fun c => unsafe_char c = false) l -> List.filter safe l = l.
Proof.
  induction 1 as [|c l Hc _ IH]; simpl; [reflexivity|].
  unfold safe at 1. rewrite Hc. simpl. now rewrite IH.
Qed.

Lemma strip_unsafe_chars (s : string) :
  Forall (fun c => unsafe_char c = false) (list_ascii_of_string (strip_unsafe s)).
Proof.
  unfold strip_unsafe. rewrite list_ascii_of_string_of_list_ascii.
  apply filter_safe_all.
Qed.

Lemma strip_unsafe_idempotent (s : string) :
  strip_unsafe (strip_unsafe s) = strip_unsafe s.
Proof.
  unfold strip_unsafe at 1.
  rewrite (filter_safe_id _ (strip_unsafe_chars s)).
  apply string_of_list_ascii_of_string.
Qed.

Lemma sanitizeString_of_string (rt : Runtime) (x : string) :
  sanitizeString rt (JStr x) = strip_unsafe x.
Proof. reflexivity. Qed.

Lemma unsafe_char_spec (c : ascii) :
  unsafe_char c = false ->
  c <> "<"%char /\ c <> ">"%char /\ c <> ascii_of_nat 34 /\ c <> "'"%char.
Proof.
  intros H. repeat split; intros ->; discriminate H.
Qed.

Lemma newlines_to_spaces_keeps (P Q : ascii -> Prop) (l : list ascii) :
  P SP -> (forall c, Q c -> c <> CR -> c <> LF -> P c) ->
  Forall Q l -> Forall P (newlines_to_spaces l).
Proof.
  intros Hsp HQ.
  remember (length l) as n eqn:Hn. revert l Hn.
  induction n as [n IH] using lt_wf_ind. intros l Hn Hl.
  destruct Hl as [|c rest Hc Hrest]; simpl; [constructor|].
  destruct (Ascii.eqb c CR) eqn:Ecr.
  - destruct Hrest as [|c' rest' Hc' Hrest']; [repeat constructor; exact Hsp|].
    destruct (Ascii.eqb c' LF); constructor; try exact Hsp.
    + apply (IH (length rest')); [simpl in Hn; lia | reflexivity | exact Hrest'].
    + apply (IH (length (c' :: rest'))); [simpl in *; lia | reflexivity |].
      constructor; assumption.
  - apply Ascii.eqb_neq in Ecr.
    destruct (Ascii.eqb c LF) eqn:Elf; constructor.
    + exact Hsp.
    + apply (IH (length rest)); [simpl in Hn; lia | reflexivity | exact Hrest].
    + apply Ascii.eqb_neq in Elf. apply HQ; assumption.
    + apply (IH (length rest)); [simpl in Hn; lia | reflexivity | exact Hrest].
Qed.

Lemma newlines_to_spaces_all (P : ascii -> Prop) (l : list ascii) :
  P SP -> Forall P l -> Forall P (newlines_to_spaces l).
Proof.
  intros Hsp. apply newlines_to_spaces_keeps; [exact Hsp | auto].
Qed.

Lemma newlines_to_spaces_none (l : list ascii) :
  Forall no_newline (newlines_to_spaces l).
Proof.
  apply (newlines_to_spaces_keeps no_newline (fun _ => True)).
  - split; discriminate.
  - intros c _ Hcr Hlf. split; assumption.
  - apply Forall_forall. trivial.
Qed.

Lemma newlines_to_spaces_id (l : list ascii) :
  Forall no_newline l -> newlines_to_spaces l = l.
Proof.
  induction 1 as [|c rest [Hcr Hlf] Hrest IH]; simpl; [reflexivity|].
  apply Ascii.eqb_neq in Hcr, Hlf. rewrite Hcr, Hlf. now rewrite IH.
Qed.

Lemma trim_start_all (P : ascii -> Prop) (l : list ascii) :
  Forall P l -> Forall P (trim_start l).
Proof.
  induction 1 as [|c rest Hc Hrest IH]; simpl; [constructor|].
  destruct (white_space c); [exact IH | constructor; assumption].
Qed.

Lemma trim_end_all (P : ascii -> Prop) (l : list ascii) :
  Forall P l -> Forall P (trim_end l).
Proof.
  induction 1 as [|c rest Hc Hrest IH]; simpl; [constructor|].
  destruct (trim_end rest) as [|k ks].
  - destruct (white_space c); repeat constructor; assumption.
  - constructor; assumption.
Qed.

Lemma trim_all (P : ascii -> Prop) (l : list ascii) :
  Forall P l -> Forall P (trim l).
Proof. intros H. apply trim_end_all, trim_start_all, H. Qed.

Lemma trim_start_clean (l : list ascii) : starts_clean (trim_start l).
Proof.
  induction l as [|c rest IH]; simpl; [exact I|].
  destruct (white_space c) eqn:E; [exact IH | exact E].
Qed.

Lemma trim_start_id (l : list ascii) : starts_clean l -> trim_start l = l.
Proof. destruct l as [|c rest]; simpl; [reflexivity|]. now intros ->. Qed.

Lemma trim_end_clean (l : list ascii) : starts_clean l -> starts_clean (trim_end l).
Proof.
  destruct l as [|c rest]; simpl; [trivial|]. intros Hc.
  destruct (trim_end rest); [rewrite Hc|]; exact Hc.
Qed.

Lemma trim_end_idempotent (l : list ascii) : trim_end (trim_end l) = trim_end l.
Proof.
  induction l as [|c rest IH]; simpl; [reflexivity|].
  destruct (trim_end rest) as [|k ks] eqn:E.
  - destruct (white_space c) eqn:Ec; simpl; [reflexivity | now rewrite Ec].
  - change (trim_end (c :: k :: ks)) with
      (match trim_end (k :: ks) with
       | [] => if white_space c then [] else [c]
       | kept => c :: kept
       end).
    now rewrite IH.
Qed.

Lemma trim_idempotent (l : list ascii) : trim (trim l) = trim l.
Proof.
  unfold trim.
  rewrite (trim_start_id (trim_end (trim_start l))).
  - apply trim_end_idempotent.
  - apply trim_end_clean, trim_start_clean.
Qed.

Lemma sanitizeText_chars (content : string) :
  Forall (fun c => unsafe_char c = false) (list_ascii_of_string (sanitizeText content)).
Proof.
  unfold sanitizeText. rewrite list_ascii_of_string_of_list_ascii.
  apply trim_all, newlines_to_spaces_all; [reflexivity | apply filter_safe_all].
Qed.

Lemma sanitizeText_idempotent (content : string) :
  sanitizeText (sanitizeText content) = sanitizeText content.
Proof.
  unfold sanitizeText at 1.
  rewrite (filter_safe_id _ (sanitizeText_chars content)).
  unfold sanitizeText. rewrite list_ascii_of_string_of_list_ascii.
  rewrite newlines_to_spaces_id by apply trim_all, newlines_to_spaces_none.
  now rewrite trim_idempotent.
Qed.

(** C10: the string sanitizer is idempotent and its output holds none of
    the characters less-than, greater-than, double quote and single
    quote.  Stated for [ArgumentSanitizer.sanitizeString] on every string
    [x], and for [PromptContentSanitizer.sanitizeText], which deletes the
    same characters before it replaces line breaks and trims. *)
Theorem sanitizeString_idempotent_and_clean (rt : Runtime) (x : string) :
  (sanitizeString rt (JStr (sanitizeString rt (JStr x))) = sanitizeString rt (JStr x)
   /\ Forall (fun c => c <> "<"%char /\ c <> ">"%char /\ c <> ascii_of_nat 34 /\ c <> "'"%char)
        (list_ascii_of_string (sanitizeString rt (JStr x))))
  /\ (sanitizeText (sanitizeText x) = sanitizeText x
      /\ Forall (fun c => c <> "<"%char /\ c <> ">"%char /\ c <> ascii_of_nat 34 /\ c <> "'"%char)
           (list_ascii_of_string (sanitizeText x))).
Proof.
  split; split.
  - rewrite !sanitizeString_of_string. apply strip_unsafe_idempotent.
  - rewrite sanitizeString_of_string.
    eapply List.Forall_impl; [|apply strip_unsafe_chars].
    intros c. apply unsafe_char_spec.
  - apply sanitizeText_idempotent.
  - eapply List.Forall_impl; [|apply sanitizeText_chars].
    intros c. apply unsafe_char_spec.
Qed.

End SanitizerFacts.

(** ** Reading a property *)

Section LookupFacts.

Import Js Schema.

(** [o[k]] is [undefined] or [null] exactly when the own entry is
    missing or holds such a value, and [Object.prototype] has no member
    of that name to stand in for a missing entry. *)
Lemma nullish_get (o : Entries) (k : string) :
  nullish (get o k) = true <->
  nullish (default JUndefined (own o k)) = true /\ (own o k = None -> inherits k = false).
Proof.
  unfold get, inherited. destruct (own o k) as [v|]; simpl.
  - split; [intros H; split; [exact H | discriminate] | tauto].
  - destruct (inherits k); simpl.
    + split; [discriminate | intros [_ H]; specialize (H eq_refl); discriminate].
    + tauto.
Qed.

Lemma property_declared (schema : ObjectSchema) (k : string) (s : JSONSchema) :
  declared schema k = Some s -> property schema k = Some s.
Proof.
  unfold declared, property. destruct (properties schema) as [props|]; [|discriminate].
  now intros ->.
Qed.

Lemma property_Some (schema : ObjectSchema) (k : string) (s : JSONSchema) :
  property schema k = Some s <->
  declared schema k = Some s
  \/ (declared schema k = None /\ properties schema <> None /\ inherits k = true
      /\ s = inherited_member).
Proof.
  unfold declared, property. destruct (properties schema) as [props|].
  - destruct (props !! k) as [s'|].
    + split; [auto | intros [H|(H & _)]; [exact H | discriminate]].
    + destruct (inherits k).
      * split; [intros [= <-]; right; repeat split; discriminate|].
        intros [H|(_ & _ & _ & ->)]; [discriminate | reflexivity].
      * split; [discriminate | intros [H|(_ & _ & H & _)]; discriminate].
  - split; [discriminate | intros [H|(_ & H & _)]; [discriminate | now destruct H]].
Qed.

Lemma property_None (schema : ObjectSchema) (k : string) :
  property schema k = None <->
  declared schema k = None /\ (properties schema = None \/ inherits k = false).
Proof.
  unfold declared, property. destruct (properties schema) as [props|].
  - destruct (props !! k) as [s'|].
    + split; [discriminate | intros [H _]; discriminate].
    + destruct (inherits k).
      * split; [discriminate | intros [_ [H|H]]; discriminate].
      * split; [auto | reflexivity].
  - split; [auto | reflexivity].
Qed.


End LookupFacts.

(** ** The keys and values the argument sanitizer keeps *)

Section SanitizeArgumentsFacts.

Import Js Schema Sanitizer Samples.

Variables (rt : Runtime) (h : Helpers).






(** C9, at the failing input: the tool declares the string [b] alone
    and the arguments hold [constructor] besides.  The lookup of
    [constructor] among the schema's properties finds the member every
    object inherits, which is truthy, so the key is kept, and its value
    is stored as it came, markup included; the declared [b] is
    sanitized. *)
Theorem sanitizeArguments_keeps_undeclared_constructor :
  declared (inputSchema labelled_tool) "constructor" = None
  /\ sanitizeArguments rt h [("constructor", JStr "<x>"); ("b", JStr "<y>")] labelled_tool
     = <["b" := JStr "y"]> (<["constructor" := JStr "<x>"]> ∅).
Proof. split; reflexivity. Qed.

End SanitizeArgumentsFacts.

(** ** The access controller checks in order and stops at the first failure *)

Section AccessFacts.

Import Access.

Context {C : Type}.
Variables (h : Helpers C) (toolName : string) (args : Js.Entries)
  (context : ExecutionContext).

Lemma checkToolAccess_state (s : Controller C) :
  checkToolAccess h toolName context s
  = (Normal (access_granted h toolName context s), note AccessCheck s).
Proof.
  unfold access_granted, checkToolAccess.
  destruct (length (default [] (permissionMap s !! toolName)) =? 0)%nat; reflexivity.
Qed.

(** C5: the controller runs the permission check, then the rate-limit
    check, then the quota check.  The first one that fails decides the
    error (PermissionError, RateLimitError, QuotaError), and the checks
    after it are not run: they are missing from the record of checks
    made, and the counters they would have updated are as the last
    check run left them. *)
Theorem validateToolExecution_first_failure (s : Controller C) :
  let outcome := fst (validateToolExecution h toolName args context s) in
  let s' := snd (validateToolExecution h toolName args context s) in
  let granted := access_granted h toolName context s in
  let limited := rate_limited h toolName context s in
  let quota := quota_left h toolName context s in
  (granted = false ->
     outcome = Throw (PermissionError toolName)
     /\ checked s' = checked s ++ [AccessCheck]
     /\ counters s' = counters s)
  /\ (granted = true -> fst limited = true ->
     outcome = Throw (RateLimitError toolName)
     /\ checked s' = checked s ++ [AccessCheck; RateLimitCheck]
     /\ counters s' = snd limited)
  /\ (granted = true -> fst limited = false -> fst quota = false ->
     outcome = Throw (QuotaError toolName)
     /\ checked s' = checked s ++ [AccessCheck; RateLimitCheck; QuotaCheck]
     /\ counters s' = snd quota)
  /\ (granted = true -> fst limited = false -> fst quota = true ->
     outcome = Normal tt
     /\ checked s' = checked s ++ [AccessCheck; RateLimitCheck; QuotaCheck]
     /\ counters s' = snd quota).
Proof.
  cbv zeta. unfold validateToolExecution, bind.
  rewrite checkToolAccess_state.
  unfold quota_left, rate_limited, rateLimit, resourceQuota.
  destruct (access_granted h toolName context s) eqn:Ha; simpl.
  - destruct (checkRateLimit h toolName context (counters s)) as [limited c1] eqn:Hr.
    simpl. destruct limited; simpl.
    + repeat split; try discriminate; intros; rewrite <- ?app_assoc; reflexivity.
    + destruct (checkResourceQuota h toolName context c1) as [quota c2] eqn:Hq.
      simpl. destruct quota; simpl;
        repeat split; try discriminate; intros; rewrite <- ?app_assoc; reflexivity.
  - repeat split; try discriminate; intros; reflexivity.
Qed.

End AccessFacts.

(** ** The tool cache *)

Section CacheFacts.

Import Js Schema Client.

Variable server : Server.

Lemma getTool_hit (now fetched : Z) (name : string) (s : State) (t : Tool) :
  cached_valid now name s = Some t ->
  getTool server now fetched name false s = (Normal t, s).
Proof.
  unfold cached_valid, getTool, bind, read. intros H.
  destruct (cache s !! name) as [cached|]; [|discriminate].
  simpl. destruct (isCacheExpired now cached); [discriminate|].
  simpl. injection H as <-. reflexivity.
Qed.

Lemma getTool_miss (now fetched : Z) (name : string) (s : State) :
  cached_valid now name s = None ->
  getTool server now fetched name false s =
    match definition server (sent s) name with
    | Normal t =>
        (Normal t,
         cache_set name {| tool := t; timestamp := fetched; ttl := ttl_of t |}
           (transmit (FetchTool name) s))
    | Throw e => (Throw e, transmit (FetchTool name) s)
    end.
Proof.
  unfold cached_valid, getTool, bind, read, fetchToolFromServer, modify, ret. intros H.
  destruct (cache s !! name) as [cached|]; simpl.
  - destruct (isCacheExpired now cached); [|discriminate]. simpl.
    destruct (definition server (sent s) name); reflexivity.
  - destruct (definition server (sent s) name); reflexivity.
Qed.

(** After a fetch stored at [fetched], the entry answers at [now]
    exactly while [now - fetched <= ttl]. *)
Lemma cached_valid_after_fetch (now fetched : Z) (name : string) (s : State) (t : Tool) :
  cached_valid now name
    (cache_set name {| tool := t; timestamp := fetched; ttl := ttl_of t |} s)
  = if (now - fetched >? ttl_of t)%Z then None else Some t.
Proof.
  unfold cached_valid, cache_set. simpl. rewrite lookup_insert_eq. reflexivity.
Qed.

(** C4: a read that misses fetches the definition once and stores it
    with the clock [fetched].  A second read of the same name while
    [now - fetched <= ttl] is answered from the cache, so the two reads
    make exactly one transmission in total.  A read after the TTL has
    elapsed ([now - fetched > ttl]) is a miss and makes exactly one
    fresh transmission. *)
Theorem getTool_within_ttl_one_transmission
    (name : string) (s : State) (t : Tool) (t1 fetched : Z) :
  cached_valid t1 name s = None ->
  definition server (sent s) name = Normal t ->
  let s1 := snd (getTool server t1 fetched name false s) in
  fst (getTool server t1 fetched name false s) = Normal t
  /\ sent s1 = sent s ++ [FetchTool name]
  /\ (forall now fetched', (now - fetched <= ttl_of t)%Z ->
        getTool server now fetched' name false s1 = (Normal t, s1))
  /\ (forall now fetched', (now - fetched > ttl_of t)%Z ->
        sent (snd (getTool server now fetched' name false s1))
        = sent s1 ++ [FetchTool name]).
Proof.
  intros Hmiss Hdef. cbv zeta.
  rewrite (getTool_miss _ _ _ _ Hmiss), Hdef. simpl.
  repeat split.
  - intros now fetched' Hin. apply getTool_hit.
    rewrite cached_valid_after_fetch.
    destruct (Z.gtb_spec (now - fetched) (ttl_of t)); [lia | reflexivity].
  - intros now fetched' Hout. rewrite getTool_miss.
    + simpl. destruct (definition server (sent s ++ [FetchTool name]) name); reflexivity.
    + rewrite cached_valid_after_fetch.
      destruct (Z.gtb_spec (now - fetched) (ttl_of t)); [reflexivity | lia].
Qed.

End CacheFacts.

(** ** The resource reader *)

Section ResourceFacts.

Import Js Client Resources.

Context {Cache : Type}.
Variables (h : Helpers Cache) (server : Server).

(** X5: a read answered from a cached content that has not expired
    transmits nothing and leaves the reader as it was; any other read
    puts exactly one request on the wire, a [resources/read] for the
    uri, whatever the server answers. *)
Theorem readResource_transmissions (now : Z) (uri : string) (r : Reader Cache) :
  (forall cachedContent, cached_content h now uri r = Some cachedContent ->
     readResource h server now uri r = (Normal cachedContent, r))
  /\ (cached_content h now uri r = None ->
      transmitted (snd (readResource h server now uri r))
      = transmitted r ++ [Request (read_request h uri r)]
      /\ method (read_request h uri r) = "resources/read").
Proof.
  unfold readResource. split.
  - intros cachedContent ->. reflexivity.
  - intros ->. split; [|reflexivity]. unfold fetch_content.
    destruct (respond server (transmitted r) (read_request h uri r)) as [response|e];
      [|reflexivity].
    destruct (validateResourceContentResponse h response) as [content|e]; [|reflexivity].
    destruct (integrityEnabled h); [|reflexivity].
    destruct (verifyContent h uri content); reflexivity.
Qed.

End ResourceFacts.

(** ** The tool validator *)

Section ToolValidatorFacts.

Import Js Schema Validator Violation.

Variable checkType : CheckType.

Lemma result_of_valid (errs : list Message) :
  valid (result_of errs) = false <-> errs <> [].
Proof. destruct errs; simpl; split; congruence. Qed.

(** The required loop reports a parameter exactly when it is missing
    and nothing inherited stands in for it: a missing parameter with
    the name of a member of [Object.prototype] is reported only when
    the arguments hold [null] or [undefined] under that name. *)
Lemma missing_required_spec (schema : ObjectSchema) (args : Entries) (param : string) :
  In (MissingRequired param) (missing_required schema args) <->
  missing schema args param /\ (own args param = None -> inherits param = false).
Proof.
  unfold missing_required, missing. destruct (required schema) as [params|].
  - rewrite in_flat_map. split.
    + intros (x & Hin & He). destruct (nullish (get args x)) eqn:Hn; [|destruct He].
      destruct He as [[= ->]|[]]. apply nullish_get in Hn as [H1 H2].
      split; [exists params; auto | exact H2].
    + intros [(params' & [= <-] & Hin & H1) H2]. exists param. split; [exact Hin|].
      rewrite (proj2 (nullish_get args param) (conj H1 H2)). now left.
  - split; [intros [] | intros [(params' & H & _) _]; discriminate].
Qed.

Lemma missing_required_sound (schema : ObjectSchema) (args : Entries) (e : Message) :
  In e (missing_required schema args) ->
  exists param, e = MissingRequired param /\ missing schema args param
    /\ (own args param = None -> inherits param = false).
Proof.
  intros He.
  assert (Hp : exists param, e = MissingRequired param).
  { unfold missing_required in He. destruct (required schema) as [params|]; [|destruct He].
    apply in_flat_map in He as (param & _ & He).
    destruct (nullish (get args param)); [|destruct He].
    destruct He as [<-|[]]. eauto. }
  destruct Hp as [param ->]. exists param. split; [reflexivity|].
  now apply missing_required_spec.
Qed.

Lemma checkArgument_complete (schema : ObjectSchema) (args : Entries)
    (param : string) (value : JValue) (paramSchema : JSONSchema) (e : Message) :
  In (param, value) args -> property schema param = Some paramSchema ->
  checkType param value paramSchema = Some e ->
  In e (flat_map (checkArgument checkType schema) args).
Proof.
  intros Hin Hp He. apply in_flat_map. exists (param, value).
  split; [exact Hin|]. unfold checkArgument. rewrite Hp, He. now left.
Qed.

Lemma validateArguments_errors (tool : Tool) (args : Entries) :
  errors (validateArguments checkType tool args)
  = missing_required (inputSchema tool) args
    ++ flat_map (checkArgument checkType (inputSchema tool)) args.
Proof. reflexivity. Qed.

End ToolValidatorFacts.

(** ** The executor *)

Section ExecutorFacts.

Import Js Schema Validator Violation Client Executor.

Context {Result : Type}.
Variables (h : Helpers Result) (server : Server).

Lemma callTool_unresolved (name : string) (args : Entries) (s s1 : State) (e : Thrown) :
  getToolDefinition h name s = (Throw e, s1) ->
  callTool h server name args s = (Throw e, s1).
Proof. intros H. unfold callTool, bind. now rewrite H. Qed.

Lemma callTool_invalid (name : string) (args : Entries) (s s1 : State) (tool : Tool) :
  getToolDefinition h name s = (Normal tool, s1) ->
  valid (validateArguments (checkType h) tool args) = false ->
  callTool h server name args s
  = (Throw (ValidationError (errors (validateArguments (checkType h) tool args))), s1).
Proof. intros H Hv. unfold callTool, bind. rewrite H, Hv. reflexivity. Qed.

Lemma callTool_valid (name : string) (args : Entries) (s s1 : State) (tool : Tool) :
  getToolDefinition h name s = (Normal tool, s1) ->
  valid (validateArguments (checkType h) tool args) = true ->
  exists request outcome,
    callTool h server name args s = (outcome, transmit (Request request) s1)
    /\ method request = "tools/call".
Proof.
  intros H Hv. unfold callTool, bind. rewrite H, Hv. simpl.
  unfold try_catch, bind, session_request, read, lift, throw. simpl.
  match goal with |- context [respond server ?l ?r] =>
    exists r; destruct (respond server l r) as [response|e] end.
  - destruct (processToolResponse h response tool); eexists; split; reflexivity.
  - eexists; split; reflexivity.
Qed.

End ExecutorFacts.

Section CallToolValidation.

Import Js Schema Validator Violation Client Executor Samples.

Context {Result : Type}.

(** C1, at the failing input: the tool requires a parameter named
    [toString] and the call supplies no argument at all.  The required
    parameter is missing, but [args[param]] reads the function every
    object inherits from [Object.prototype], which is neither
    [undefined] nor [null]: the validator has nothing to report, no
    [ValidationError] is thrown and the request goes on the wire.  This
    holds whatever the helpers of the executor do ([checkType] is never
    asked, since there is no argument). *)
Theorem callTool_sends_without_required_toString
    (check : CheckType) (requestId : list Transmission -> JValue)
    (sanitize : Entries -> JValue) (process : RPCResponse -> Tool -> Completion Result)
    (server : Server) (s : State) :
  let h :=
    {| getToolDefinition := fun _ => ret describing_tool; checkType := check;
       generateRequestId := requestId; sanitizeArguments := sanitize;
       processToolResponse := process |} in
  let request :=
    {| jsonrpc := "2.0"; id := requestId (sent s); method := "tools/call";
       params := JObj [("name", JStr "describe"); ("arguments", sanitize [])] |} in
  missing (inputSchema describing_tool) [] "toString"
  /\ validateArguments check describing_tool [] = {| valid := true; errors := [] |}
  /\ sent (snd (callTool h server "describe" [] s)) = sent s ++ [Request request]
  /\ forall errs, fst (callTool h server "describe" [] s) <> Throw (ValidationError errs).
Proof.
  cbv zeta. split; [exists ["toString"]; repeat split; now left|].
  split; [reflexivity|].
  unfold callTool, bind, ret. simpl.
  unfold try_catch, bind, session_request, read, lift, throw. simpl.
  destruct (respond server (sent s) _) as [response|e]; simpl.
  - destruct (process response describing_tool); simpl; split; try reflexivity; discriminate.
  - split; [reflexivity | discriminate].
Qed.

End CallToolValidation.

Section CallToolCache.

Import Js Schema Validator Client Executor.

Context {Result : Type}.
Variables (h : Helpers Result) (server : Server).

Lemma callTool_cache (helpers : Helpers Result) (name : string) (args : Entries) (s : State) :
  cache (snd (callTool helpers server name args s))
  = cache (snd (getToolDefinition helpers name s)).
Proof.
  destruct (getToolDefinition helpers name s) as [[tool|e] s1] eqn:Hdef.
  - destruct (valid (validateArguments (checkType helpers) tool args)) eqn:Hv.
    + destruct (callTool_valid helpers server name args s s1 tool Hdef Hv)
        as (request & outcome & -> & _). reflexivity.
    + now rewrite (callTool_invalid helpers server name args s s1 tool Hdef Hv).
  - now rewrite (callTool_unresolved helpers server name args s s1 e Hdef).
Qed.

(** C8: a tool call stores nothing in the cache.  Whatever the server
    answers, the cache after [callTool] is the cache as the resolution
    of the tool definition left it; when the definition is answered
    from a valid cache entry, the cache after the call is the cache
    before it.  The only entries the cache ever receives are tool
    definitions (a result of discovery), written by [getTool]. *)
Theorem callTool_leaves_cache_unchanged (name : string) (args : Entries) (s : State) :
  cache (snd (callTool h server name args s)) = cache (snd (getToolDefinition h name s))
  /\ (forall now fetched t,
        cached_valid now name s = Some t ->
        cache (snd (callTool (resolving_from_cache h server now fetched) server name args s))
        = cache s)
  /\ (forall now fetched,
        cached_valid now name s = None ->
        cache (snd (callTool (resolving_from_cache h server now fetched) server name args s))
        = match definition server (sent s) name with
          | Normal t => <[name := {| tool := t; timestamp := fetched; ttl := ttl_of t |}]> (cache s)
          | Throw _ => cache s
          end).
Proof.
  split; [apply callTool_cache|]. split.
  - intros now fetched t Hvalid. rewrite callTool_cache. simpl.
    now rewrite (getTool_hit server now fetched name s t Hvalid).
  - intros now fetched Hmiss. rewrite callTool_cache. simpl.
    rewrite (getTool_miss server now fetched name s Hmiss).
    destruct (definition server (sent s) name); reflexivity.
Qed.

End CallToolCache.

(** ** The prompt parameter validator *)

Section PromptValidatorFacts.

Import Js Schema Validator Violation.

Variable rt : Runtime.

Lemma type_is_eq (schema : JSONSchema) (t : string) :
  type_is schema t = true <-> type schema = Some t.
Proof.
  unfold type_is. destruct (type schema) as [t'|]; [|split; discriminate].
  rewrite String.eqb_eq. split; congruence.
Qed.










(** The validator of one parameter throws in two ways only: reading
    the length of [null] or [undefined], and building the expression of
    a pattern that is not the source of one.  Both are in the string
    block. *)
Lemma validateParameter_throws (name : string) (value : JValue) (schema : JSONSchema)
    (e : Thrown) :
  validateParameter rt name value schema = Throw e ->
  type schema = Some "string"
  /\ ((e = TypeError /\ nullish value = true
       /\ (is_Some (minLength schema) \/ is_Some (maxLength schema)))
      \/ (e = SyntaxError
          /\ exists p, pattern schema = Some p /\ regexp_valid rt p = false)).
Proof.
  intros H. unfold validateParameter, string_errors in H.
  destruct (type_is schema "string") eqn:Ht; [|discriminate].
  split; [now apply type_is_eq|].
  unfold min_length_errors, max_length_errors, pattern_errors, length_of in H.
  destruct (pattern schema) as [p|] eqn:Hp.
  - destruct (negb (String.eqb p "")), (regexp_valid rt p) eqn:Hvalid,
      (minLength schema), (maxLength schema), value;
      simpl in H; try discriminate H; injection H as <-;
      try (left; repeat split; eauto; fail); right; eauto.
  - destruct (minLength schema), (maxLength schema), value;
      simpl in H; try discriminate H; injection H as <-;
      left; repeat split; eauto.
Qed.

(** Reading the length of [null] or [undefined] comes first. *)
Lemma validateParameter_of_null (name : string) (value : JValue) (schema : JSONSchema) :
  type schema = Some "string" ->
  is_Some (minLength schema) \/ is_Some (maxLength schema) ->
  nullish value = true ->
  validateParameter rt name value schema = Throw TypeError.
Proof.
  intros Ht Hbound Hnull. apply type_is_eq in Ht.
  unfold validateParameter, string_errors, min_length_errors, max_length_errors.
  rewrite Ht.
  destruct value; try discriminate Hnull;
    destruct (minLength schema), (maxLength schema); simpl; try reflexivity;
    destruct Hbound as [[x Hx]|[x Hx]]; discriminate.
Qed.




End PromptValidatorFacts.

Section PromptValidation.

Import Js Schema Validator Violation.

Variable rt : Runtime.

Lemma singleton_about_value (b : bool) (e : Message) :
  about_value e -> Forall about_value (if b then [e] else []).
Proof. intros He. destruct b; repeat constructor; exact He. Qed.

Lemma validateParameter_about_value (name : string) (value : JValue) (schema : JSONSchema)
    (errs : list Message) :
  validateParameter rt name value schema = Normal errs -> Forall about_value errs.
Proof.
  unfold validateParameter.
  destruct (string_errors rt name value schema) as [more|] eqn:Hs; [|discriminate].
  intros [= <-]. repeat (apply Forall_app; split).
  - unfold type_errors.
    destruct (type schema); [apply singleton_about_value; exact I | constructor].
  - unfold enum_errors.
    destruct (enum schema); [apply singleton_about_value; exact I | constructor].
  - unfold range_errors.
    destruct (type_is schema "number" || type_is schema "integer"); [|constructor].
    apply Forall_app. split.
    + destruct (minimum schema); [apply singleton_about_value; exact I | constructor].
    + destruct (maximum schema); [apply singleton_about_value; exact I | constructor].
  - unfold string_errors in Hs.
    destruct (type_is schema "string"); [|injection Hs as <-; constructor].
    destruct (min_length_errors rt name value schema) as [below|] eqn:Hb; [|discriminate].
    destruct (max_length_errors rt name value schema) as [above|] eqn:Ha; [|discriminate].
    destruct (pattern_errors rt name value schema) as [failed|] eqn:Hf; [|discriminate].
    injection Hs as <-. repeat (apply Forall_app; split).
    + unfold min_length_errors in Hb.
      destruct (minLength schema); [|injection Hb as <-; constructor].
      destruct (length_of value); [|discriminate].
      injection Hb as <-. apply singleton_about_value. exact I.
    + unfold max_length_errors in Ha.
      destruct (maxLength schema); [|injection Ha as <-; constructor].
      destruct (length_of value); [|discriminate].
      injection Ha as <-. apply singleton_about_value. exact I.
    + unfold pattern_errors in Hf.
      destruct (pattern schema) as [p|]; [|injection Hf as <-; constructor].
      destruct (negb (String.eqb p "")); [|injection Hf as <-; constructor].
      destruct (regexp_valid rt p); [|discriminate].
      injection Hf as <-. apply singleton_about_value. exact I.
Qed.

(** Where the messages of the second loop come from: the list it
    started with, the validator of a supplied parameter for which the
    lookup among the properties finds something, and the supplied
    parameters for which it finds nothing, when the schema allows no
    additional properties. *)
Lemma validateEntries_origin (schema : ObjectSchema) (entries : Entries)
    (acc errs : list Message) (e : Message) :
  validateEntries rt schema entries acc = Normal errs ->
  In e errs <->
  In e acc
  \/ (exists param value paramSchema paramErrors,
        In (param, value) entries /\ property schema param = Some paramSchema
        /\ validateParameter rt param value paramSchema = Normal paramErrors
        /\ In e paramErrors)
  \/ (exists param value,
        e = UnknownParameter param /\ In (param, value) entries
        /\ property schema param = None /\ additionalProperties schema = false).
Proof.
  revert acc. induction entries as [|[p v] rest IH]; intros acc; simpl.
  - intros [= <-]. split; [auto|].
    intros [H|[(? & ? & ? & ? & [] & _)|(? & ? & _ & [] & _)]]. exact H.
  - destruct (property schema p) as [ps|] eqn:Hp.
    + destruct (validateParameter rt p v ps) as [pe|] eqn:Hv; [|discriminate].
      intros Hrest. rewrite (IH _ Hrest), in_app_iff. split.
      * intros [[H|H]|[(param & value & ps' & pe' & Hin & H)|(param & value & He & Hin & H)]].
        -- auto.
        -- right. left. exists p, v, ps, pe. auto.
        -- right. left. exists param, value, ps', pe'. auto.
        -- right. right. exists param, value. auto.
      * intros [H|[(param & value & ps' & pe' & [[= <- <-]|Hin] & Hps & Hvp & He)
                  |(param & value & He & [[= <- <-]|Hin] & Hn & Ha)]].
        -- auto.
        -- left. right. congruence.
        -- right. left. exists param, value, ps', pe'. auto.
        -- congruence.
        -- right. right. exists param, value. auto.
    + destruct (additionalProperties schema) eqn:Ha; simpl;
        intros Hrest; rewrite (IH _ Hrest); clear IH Hrest.
      * split.
        -- intros [H|[(param & value & ps' & pe' & Hin & H)|(param & value & He & Hin & H)]].
           ++ auto.
           ++ right. left. exists param, value, ps', pe'. auto.
           ++ right. right. exists param, value. auto.
        -- intros [H|[(param & value & ps' & pe' & [[= <- <-]|Hin] & Hps & Hmore)
                    |(param & value & He & [[= <- <-]|Hin] & Hn & Hf)]].
           ++ auto.
           ++ congruence.
           ++ right. left. exists param, value, ps', pe'. auto.
           ++ discriminate.
           ++ right. right. exists param, value. auto.
      * rewrite in_app_iff. split.
        -- intros [[H|[<-|[]]]|[(param & value & ps' & pe' & Hin & H)
                                |(param & value & He & Hin & H)]].
           ++ auto.
           ++ right. right. exists p, v. auto.
           ++ right. left. exists param, value, ps', pe'. auto.
           ++ right. right. exists param, value. auto.
        -- intros [H|[(param & value & ps' & pe' & [[= <- <-]|Hin] & Hps & Hmore)
                    |(param & value & He & [[= <- <-]|Hin] & Hn & Hf)]].
           ++ auto.
           ++ congruence.
           ++ right. left. exists param, value, ps', pe'. auto.
           ++ left. right. left. now symmetry.
           ++ right. right. exists param, value. auto.
Qed.

(** The second loop returns only if the validator of every supplied
    parameter it looks up returns. *)
Lemma validateEntries_returns (schema : ObjectSchema) (entries : Entries)
    (acc errs : list Message) (param : string) (value : JValue) (paramSchema : JSONSchema) :
  validateEntries rt schema entries acc = Normal errs ->
  In (param, value) entries -> property schema param = Some paramSchema ->
  exists paramErrors, validateParameter rt param value paramSchema = Normal paramErrors.
Proof.
  revert acc. induction entries as [|[p v] rest IH]; intros acc; simpl; [intros _ []|].
  destruct (property schema p) as [ps|] eqn:Hp.
  - destruct (validateParameter rt p v ps) as [pe|] eqn:Hv; [|discriminate].
    intros Hrest [[= <- <-]|Hin] Hps; [|eapply IH; eassumption].
    rewrite Hp in Hps. injection Hps as <-. eauto.
  - destruct (negb (additionalProperties schema)); intros Hrest [[= <- <-]|Hin] Hps;
      try congruence; eapply IH; eassumption.
Qed.

(** What the second loop throws was thrown by the validator of a
    supplied parameter. *)
Lemma validateEntries_throws (schema : ObjectSchema) (entries : Entries)
    (acc : list Message) (e : Thrown) :
  validateEntries rt schema entries acc = Throw e ->
  exists param value paramSchema,
    In (param, value) entries /\ property schema param = Some paramSchema
    /\ validateParameter rt param value paramSchema = Throw e.
Proof.
  revert acc. induction entries as [|[p v] rest IH]; intros acc; simpl; [discriminate|].
  destruct (property schema p) as [ps|] eqn:Hp.
  - destruct (validateParameter rt p v ps) as [pe|e'] eqn:Hv.
    + intros Hrest. destruct (IH _ Hrest) as (param & value & ps' & Hin & H).
      exists param, value, ps'. auto.
    + intros [= <-]. exists p, v, ps. auto.
  - destruct (negb (additionalProperties schema)); intros Hrest;
      destruct (IH _ Hrest) as (param & value & ps' & Hin & H);
      exists param, value, ps'; auto.
Qed.

Lemma validateParameters_returned (prompt : PromptDefinition) (schema : ObjectSchema)
    (params : Entries) (validation : ValidationResult) :
  parametersSchema prompt = Some schema ->
  validateParameters rt prompt params = Normal validation ->
  validateEntries rt schema params (missing_required schema params)
  = Normal (errors validation)
  /\ (valid validation = false <-> errors validation <> []).
Proof.
  intros Hschema. unfold validateParameters. rewrite Hschema.
  destruct (validateEntries rt schema params (missing_required schema params))
    as [errs|e]; [|discriminate].
  intros [= <-]. split; [reflexivity | apply result_of_valid].
Qed.


(** X2: a supplied parameter that is [null] (or [undefined]) and is
    declared as a string with a length bound makes the validator of
    that parameter throw a [TypeError]: it reads the length of the
    value.  The prompt validator then never returns a result: it
    throws, a [TypeError] or, when the pattern of some string parameter
    is not the source of an expression, possibly the [SyntaxError] of
    an earlier parameter. *)
Theorem validateParameters_throws_on_null_string (prompt : PromptDefinition)
    (schema : ObjectSchema) (params : Entries)
    (param : string) (value : JValue) (paramSchema : JSONSchema) :
  parametersSchema prompt = Some schema ->
  In (param, value) params -> declared schema param = Some paramSchema ->
  type paramSchema = Some "string" ->
  is_Some (minLength paramSchema) \/ is_Some (maxLength paramSchema) ->
  nullish value = true ->
  validateParameter rt param value paramSchema = Throw TypeError
  /\ (exists e, validateParameters rt prompt params = Throw e
        /\ (e = TypeError \/ e = SyntaxError))
  /\ ((forall p, regexp_valid rt p = true) ->
      validateParameters rt prompt params = Throw TypeError).
Proof.
  intros Hschema Hin Hd Ht Hbound Hnull.
  pose proof (validateParameter_of_null rt param value paramSchema Ht Hbound Hnull) as Hthrow.
  split; [exact Hthrow|].
  apply property_declared in Hd.
  unfold validateParameters. rewrite Hschema.
  destruct (validateEntries rt schema params (missing_required schema params))
    as [errs|e] eqn:Hentries.
  { destruct (validateEntries_returns _ _ _ _ _ _ _ Hentries Hin Hd) as [pe Hv]. congruence. }
  destruct (validateEntries_throws _ _ _ _ Hentries) as (p & v & ps & _ & _ & Hv).
  apply validateParameter_throws in Hv as [_ [(-> & _)|(-> & q & _ & Hq)]].
  - split; [eauto | reflexivity].
  - split; [eauto|]. intros Hall. rewrite Hall in Hq. discriminate.
Qed.

End PromptValidation.

(** ** The message handler *)

Section CodecFacts.

Import Js Codec.

(** Whatever else a decoded object holds, the version tag alone
    decides whether [deserialize] returns it. *)
Lemma deserialize_checks_version_only (parse : string -> Completion JValue)
    (data : string) (fields : Entries) :
  parse data = Normal (JObj fields) ->
  get fields "jsonrpc" = JStr "2.0" ->
  deserialize parse data = Normal (JObj fields).
Proof.
  intros Hp Hv. unfold deserialize, validateMessage. rewrite Hp. simpl.
  now rewrite Hv.
Qed.

(** C6, at the failing input: a message that has both a method and a
    result breaks the envelope invariant, and [deserialize] returns it
    all the same, because [validateMessage] looks at the version tag
    only. *)
Theorem deserialize_returns_method_with_result (data : string) :
  envelope_invariant request_with_result = false
  /\ deserialize (fun _ => Normal request_with_result) data = Normal request_with_result.
Proof. split; reflexivity. Qed.

End CodecFacts.

(** ** The connection manager *)

Section ConnectionFacts.

Import Connection.

Variable h : Helpers.

Lemma connect_established (config : ConnectionConfig) (m : ConnectionManager) :
  establishConnection h config = Normal tt ->
  connect h config m = set_attempts 0 (set_state CONNECTED (set_state CONNECTING m)).
Proof. intros H. unfold connect. now rewrite H. Qed.

Lemma connect_failed (config : ConnectionConfig) (m : ConnectionManager) (e : Thrown) :
  establishConnection h config = Throw e ->
  connect h config m = handleConnectionError h e (set_state CONNECTING m).
Proof. intros H. unfold connect. now rewrite H. Qed.

(** C2, as amended: the state is one of DISCONNECTED, CONNECTING,
    CONNECTED, ERROR and RECONNECTING.  A connect that establishes the
    channel assigns CONNECTING and then CONNECTED, nothing between, and
    resets the reconnect counter; a connect that fails has assigned
    CONNECTING only when it hands the error to the error handler, and
    the handler decides what follows. *)
Theorem connect_assigns_connecting_then_connected
    (config : ConnectionConfig) (m : ConnectionManager) :
  (forall s : ConnectionState,
     s = DISCONNECTED \/ s = CONNECTING \/ s = CONNECTED \/ s = ERROR \/ s = RECONNECTING)
  /\ (establishConnection h config = Normal tt ->
      state (connect h config m) = CONNECTED
      /\ reconnectAttempts (connect h config m) = 0%Z
      /\ assigned (connect h config m) = assigned m ++ [CONNECTING; CONNECTED])
  /\ (forall e, establishConnection h config = Throw e ->
      connect h config m = handleConnectionError h e (set_state CONNECTING m)
      /\ state (set_state CONNECTING m) = CONNECTING
      /\ assigned (set_state CONNECTING m) = assigned m ++ [CONNECTING]).
Proof.
  split; [intros []; auto 6|]. split.
  - intros H. rewrite (connect_established _ _ H). simpl.
    rewrite <- app_assoc. auto.
  - intros e H. rewrite (connect_failed _ _ _ H). auto.
Qed.

End ConnectionFacts.

Section ConnectionCounterexample.

Import Connection.

(** C2, as stated, fails: a successful connect of a new manager assigns
    two states, CONNECTING and CONNECTED.  However the five states of
    the code are read as states of the specification, they are not the
    three steps Connecting, Negotiating, Ready. *)
Lemma connect_has_no_negotiating_step :
  assigned (connect opening over_stdio initial) = [CONNECTING; CONNECTED]
  /\ forall abs : ConnectionState -> SpecState,
       map abs (assigned (connect opening over_stdio initial)) <> spec_connect_path.
Proof.
  split; [reflexivity|]. intros abs H. discriminate H.
Qed.

End ConnectionCounterexample.

(** ** The heartbeat *)

Section HeartbeatFacts.

Import Connection Heartbeat.

Variable threshold : nat.

Lemma beat_probes (answered : bool) (sent received : Z) (m : HeartbeatManager) :
  probes (beat (handleHeartbeatFailure threshold) answered sent received m)
  = probes m ++ [sent].
Proof. unfold beat. destruct answered; reflexivity. Qed.

Lemma beat_missed (sent received : Z) (m : HeartbeatManager) :
  let m' := beat (handleHeartbeatFailure threshold) false sent received m in
  consecutive_misses m' = S (consecutive_misses m)
  /\ lastHeartbeatTime m' = lastHeartbeatTime m
  /\ countedFrom m' = lastHeartbeatTime m
  /\ connection m'
     = if (threshold <? S (consecutive_misses m))%nat then Degraded else connection m.
Proof.
  cbv zeta. unfold beat, consecutive_misses, handleHeartbeatFailure. simpl.
  rewrite Z.eqb_refl.
  destruct (lastHeartbeatTime m =? countedFrom m)%Z; auto.
Qed.

Lemma beat_answered (sent received : Z) (m : HeartbeatManager) :
  let m' := beat (handleHeartbeatFailure threshold) true sent received m in
  lastHeartbeatTime m' = received
  /\ countedFrom m' = countedFrom m
  /\ missCount m' = missCount m
  /\ connection m' = connection m
  /\ ((countedFrom m < received)%Z -> consecutive_misses m' = 0).
Proof.
  cbv zeta. unfold beat, consecutive_misses. simpl.
  repeat split. intros Hlt.
  destruct (Z.eqb_spec received (countedFrom m)); [lia | reflexivity].
Qed.

(** Over any run of the interval whose answers arrive at growing clock
    readings, the handler's count is the length of the run of misses
    the outcomes end with. *)
Lemma beats_consecutive (outcomes : list (bool * Z * Z)) (m : HeartbeatManager) :
  (countedFrom m <= lastHeartbeatTime m)%Z ->
  clock_grows (lastHeartbeatTime m) outcomes ->
  consecutive_misses (beats threshold outcomes m)
  = trailing_misses (consecutive_misses m) outcomes.
Proof.
  revert m. induction outcomes as [|[[answered sent] received] rest IH];
    intros m Hle Hclock; [reflexivity|].
  cbn [beats trailing_misses]. destruct answered.
  - destruct Hclock as [Hlt Hrest].
    destruct (beat_answered sent received m) as (Hl & Hc & _ & _ & Hz).
    rewrite IH; [rewrite Hz by lia; reflexivity | rewrite Hl, Hc; lia | now rewrite Hl].
  - destruct (beat_missed sent received m) as (Hs & Hl & Hc & _).
    rewrite IH; [now rewrite Hs | rewrite Hl, Hc; lia | now rewrite Hl].
Qed.

(** C7: every firing of the interval sends one probe.  A probe that is
    not answered increments the count of consecutive misses by one,
    and the connection state changes only then and only to Degraded,
    when that count has passed the threshold; a miss that leaves the
    count at or below the threshold leaves the state as it was (so
    does an answered probe).  The count is the count of consecutive
    misses: over a run of the interval it is the length of the run of
    misses the probes end with. *)
Theorem heartbeat_degrades_past_threshold
    (answered : bool) (sent received : Z) (m : HeartbeatManager) :
  let m' := beat (handleHeartbeatFailure threshold) answered sent received m in
  probes m' = probes m ++ [sent]
  /\ (answered = true -> connection m' = connection m)
  /\ (answered = false -> consecutive_misses m' = S (consecutive_misses m))
  /\ (answered = false -> consecutive_misses m' <= threshold ->
        connection m' = connection m)
  /\ (connection m' <> connection m ->
        answered = false /\ threshold < consecutive_misses m'
        /\ connection m' = Degraded)
  /\ (forall outcomes : list (bool * Z * Z),
        (countedFrom m <= lastHeartbeatTime m)%Z ->
        clock_grows (lastHeartbeatTime m) outcomes ->
        consecutive_misses (beats threshold outcomes m)
        = trailing_misses (consecutive_misses m) outcomes).
Proof.
  cbv zeta.
  split; [apply beat_probes|].
  split; [intros ->; apply beat_answered|].
  split; [intros ->; apply beat_missed|].
  split.
  { intros ->. destruct (beat_missed sent received m) as (Hs & _ & _ & Hc).
    rewrite Hs, Hc. intros Hle.
    destruct (Nat.ltb_spec threshold (S (consecutive_misses m))); [lia | reflexivity]. }
  split; [|intros outcomes; apply beats_consecutive].
  destruct answered.
  - destruct (beat_answered sent received m) as (_ & _ & _ & Hc & _). congruence.
  - destruct (beat_missed sent received m) as (Hs & _ & _ & Hc).
    rewrite Hs, Hc.
    destruct (Nat.ltb_spec threshold (S (consecutive_misses m))); [auto | congruence].
Qed.

End HeartbeatFacts.

(** ** The message batcher *)

Section BatcherFacts.

Import Js Client Batcher.

Context {B : Type}.
Variable h : Helpers B.

(** While the batch stays below its size limit, [sendMessage] only
    appends; the first message of a batch sets the timeout, and every
    promise resolves at once with [undefined]. *)
Lemma sendAll_below_limit (messages : list RPCRequest) (s : MessageBatcher B) :
  length (batch s) + length messages < batchSize ->
  sendAll h messages s
  = (map (fun _ => Normal None) messages,
     {| batch := batch s ++ messages;
        timers := timers s
                  + (if ((length (batch s) =? 0) && (0 <? length messages))%nat
                     then 1 else 0);
        wire := wire s |}).
Proof.
  revert s. induction messages as [|message rest IH]; intros s Hlen.
  - simpl. rewrite app_nil_r, andb_false_r, Nat.add_0_r. now destruct s.
  - cbn [sendAll]. unfold sendMessage. cbn [batch timers wire].
    rewrite length_app. cbn [length] in *.
    destruct (Nat.leb_spec batchSize (length (batch s) + 1)); [lia|].
    destruct (Nat.eqb_spec (length (batch s) + 1) 1) as [H1|H1].
    + rewrite IH by (cbn [batch]; rewrite length_app; simpl; lia).
      cbn [batch timers wire map]. rewrite <- app_assoc. simpl.
      rewrite length_app. simpl.
      destruct (Nat.eqb_spec (length (batch s)) 0); [|lia].
      destruct (Nat.eqb_spec (length (batch s) + 1) 0); [lia|]. simpl.
      do 2 f_equal. lia.
    + rewrite IH by (cbn [batch]; rewrite length_app; simpl; lia).
      cbn [batch timers wire map]. rewrite <- app_assoc. simpl.
      rewrite length_app. simpl.
      destruct (Nat.eqb_spec (length (batch s)) 0); [lia|].
      destruct (Nat.eqb_spec (length (batch s) + 1) 0); [lia|]. simpl.
      reflexivity.
Qed.

(** X3: fewer messages than the size limit in one window: when the
    timeout fires, exactly one batch request goes on the wire and it
    carries the messages in their order of arrival; every promise of
    [sendMessage] has resolved with [undefined] by then. *)
Theorem window_below_limit (messages : list RPCRequest) :
  0 < length messages < batchSize ->
  window h messages initial
  = (map (fun _ => Normal None) messages,
     {| batch := []; timers := 0; wire := [createBatchRequest h messages] |}).
Proof.
  intros [Hpos Hlt]. unfold window.
  rewrite sendAll_below_limit by (simpl; lia). simpl.
  destruct (Nat.ltb_spec 0 (length messages)); [|lia]. simpl.
  unfold timeout, flushBatch. simpl.
  destruct (transport_send h (createBatchRequest h messages)); reflexivity.
Qed.

Lemma sendAll_app (l1 l2 : list RPCRequest) (s : MessageBatcher B) :
  sendAll h (l1 ++ l2) s
  = (fst (sendAll h l1 s) ++ fst (sendAll h l2 (snd (sendAll h l1 s))),
     snd (sendAll h l2 (snd (sendAll h l1 s)))).
Proof.
  revert s. induction l1 as [|x l1 IH]; intros s; simpl.
  - now destruct (sendAll h l2 s).
  - destruct (sendMessage h x s) as [o s']. rewrite IH.
    destruct (sendAll h l1 s') as [o1 s1]. simpl.
    now destruct (sendAll h l2 s1).
Qed.

(** As many messages as the size limit: the last one flushes the
    batch, and the timeout the first one set still fires and sends a
    second, empty batch request. *)
Lemma window_at_limit (front : list RPCRequest) (last : RPCRequest) :
  S (length front) = batchSize ->
  exists outcome,
    window h (front ++ [last]) initial
    = (map (fun _ => Normal None) front ++ [outcome],
       {| batch := []; timers := 0;
          wire := [createBatchRequest h (front ++ [last]); createBatchRequest h []] |}).
Proof.
  intros Hlen. unfold batchSize in Hlen.
  assert (Hfront : sendAll h front initial
                   = (map (fun _ => Normal None) front,
                      {| batch := front; timers := 1; wire := [] |})).
  { rewrite sendAll_below_limit by (unfold batchSize; simpl; lia). simpl.
    destruct (Nat.ltb_spec 0 (length front)); [reflexivity | lia]. }
  unfold window. rewrite sendAll_app, Hfront. cbn [fst snd sendAll].
  unfold sendMessage. cbn [batch timers wire].
  rewrite length_app. cbn [length].
  destruct (Nat.leb_spec batchSize (length front + 1)); [|unfold batchSize in *; lia].
  unfold flushBatch. cbn [batch timers wire].
  destruct (transport_send h (createBatchRequest h (front ++ [last]))) as [r|e];
    cbn [fst snd timers fire]; unfold timeout, flushBatch; cbn [batch timers wire];
    destruct (transport_send h (createBatchRequest h [])); eexists; reflexivity.
Qed.

End BatcherFacts.

Section BatcherAtTheLimit.

Import Js Client Batcher.

(** C3, at the failing input: ten calls in one window put two batch
    requests on the wire, the ten sub-requests in their order of
    arrival and then an empty batch, because the timeout set by the
    first call fires after the tenth call has flushed the batch.  The
    first nine promises resolved with [undefined] when they were
    made. *)
Theorem ten_calls_two_transmissions {B : Type} (h : Helpers B) :
  wire (snd (window h ten_requests initial))
  = [createBatchRequest h ten_requests; createBatchRequest h []]
  /\ firstn 9 (fst (window h ten_requests initial)) = repeat (Normal None) 9.
Proof.
  destruct (window_at_limit h (map ping (seq 1 9)) (ping 10) eq_refl) as [outcome Hw].
  change (map ping (seq 1 9) ++ [ping 10]) with ten_requests in Hw.
  rewrite Hw. split; reflexivity.
Qed.

End BatcherAtTheLimit.

(** ** Concrete runs *)

Section Runs.

Import Js Schema Validator Violation Client Executor Example.

(** X4: the example of the specification.  With a [checkType] that
    answers with the prompt validator's first message, calling the
    operation with [a] not a number and [b] outside its enumeration
    throws one [ValidationError] with two entries, and nothing goes on
    the wire. *)
Theorem example_call_two_violations :
  callTool example_helpers silent_server "example" example_arguments fresh
  = (Throw (ValidationError [TypeExpected "a" "number" "string";
                             NotAllowed "b" [JStr "x"; JStr "y"]]),
     fresh).
Proof. reflexivity. Qed.


(** The theorem of X2 at a prompt whose parameter [a] is a string of at
    least one character, given [null]. *)
Lemma validateParameters_throws_on_null_string_witness :
  validateParameter plain_runtime "a" JNull short_text_schema = Throw TypeError
  /\ (exists e, validateParameters plain_runtime text_prompt [("a", JNull)] = Throw e
        /\ (e = TypeError \/ e = SyntaxError))
  /\ ((forall p, regexp_valid plain_runtime p = true) ->
      validateParameters plain_runtime text_prompt [("a", JNull)] = Throw TypeError).
Proof.
  apply (validateParameters_throws_on_null_string plain_runtime text_prompt
           {| required := Some ["a"];
              properties := Some (<["a" := short_text_schema]> ∅);
              additionalProperties := false |}
           [("a", JNull)] "a" JNull short_text_schema);
    try reflexivity; [now left | left; eexists; reflexivity].
Defined.

(** The theorem of X3 at five calls in one window. *)
Lemma window_below_limit_witness :
  Batcher.window (B := list RPCRequest)
    {| Batcher.createBatchRequest := fun batch => batch;
       Batcher.transport_send := fun _ => Normal JNull;
       Batcher.processBatchResponse :=
         fun _ _ => {| response_id := JNull; result := None; error := None |};
       Batcher.handleBatchError := fun e _ => e |}
    (map Batcher.ping (seq 1 5)) Batcher.initial
  = (map (fun _ => Normal None) (map Batcher.ping (seq 1 5)),
     {| Batcher.batch := []; Batcher.timers := 0;
        Batcher.wire := [map Batcher.ping (seq 1 5)] |}).
Proof.
  apply (window_below_limit
           {| Batcher.createBatchRequest := fun batch => batch;
              Batcher.transport_send := fun _ => Normal JNull;
              Batcher.processBatchResponse :=
                fun _ _ => {| response_id := JNull; result := None; error := None |};
              Batcher.handleBatchError := fun e _ => e |}
           (map Batcher.ping (seq 1 5))).
  unfold Batcher.batchSize. simpl. lia.
Defined.

(** The theorem of C4 at a first read at clock 1000, stored at 1005. *)
Lemma getTool_within_ttl_one_transmission_witness :
  let s1 := snd (getTool silent_server 1000 1005 "example" false fresh) in
  fst (getTool silent_server 1000 1005 "example" false fresh) = Normal example_tool
  /\ sent s1 = sent fresh ++ [FetchTool "example"]
  /\ (forall now fetched', (now - 1005 <= ttl_of example_tool)%Z ->
        getTool silent_server now fetched' "example" false s1 = (Normal example_tool, s1))
  /\ (forall now fetched', (now - 1005 > ttl_of example_tool)%Z ->
        sent (snd (getTool silent_server now fetched' "example" false s1))
        = sent s1 ++ [FetchTool "example"]).
Proof.
  apply (getTool_within_ttl_one_transmission silent_server "example" fresh example_tool
           1000 1005); reflexivity.
Defined.

(** Smaller runs of the other components. *)

Example sanitizeString_run :
  Sanitizer.sanitizeString plain_runtime (JStr "<b>O'Neil</b>") = "bONeil/b".
Proof. reflexivity. Qed.

Example sanitizeText_run :
  Sanitizer.sanitizeText
    (String Sanitizer.SP
       (String Sanitizer.CR (String Sanitizer.LF ("<i>a" ++ String Sanitizer.LF "b  "))))
  = "ia b".
Proof. reflexivity. Qed.

Example sanitizeArguments_run :
  Sanitizer.sanitizeArguments plain_runtime
    {| Sanitizer.sanitizeNumber := fun v => v;
       Sanitizer.sanitizeArray := fun v _ => v;
       Sanitizer.sanitizeObject := fun v _ => v |}
    [("b", JStr "<x>"); ("debug", JBool true)] example_tool
  = <["b" := JStr "x"]> ∅.
Proof. reflexivity. Qed.

Example getTool_run :
  let s1 := snd (getTool silent_server 1000 1005 "example" false fresh) in
  sent (snd (getTool silent_server 301005 301010 "example" false s1))
    = [FetchTool "example"]
  /\ sent (snd (getTool silent_server 301006 301010 "example" false s1))
    = [FetchTool "example"; FetchTool "example"].
Proof. split; reflexivity. Qed.

Example validateToolExecution_run :
  let controller :=
    {| Access.permissionMap := <["example" := ["tools:call"]]> ∅;
       Access.counters := 10%nat;
       Access.checked := [] |} in
  let helpers (permissions : list string) :=
    {| Access.getUserPermissions := fun _ => permissions;
       Access.checkRateLimit := fun _ _ n => ((10 <=? n)%nat, S n);
       Access.checkResourceQuota := fun _ _ n => (true, n) |} in
  let context := {| Access.userId := "u" |} in
  (let '(outcome, s) :=
     Access.validateToolExecution (helpers []) "example" [] context controller in
   (outcome, Access.checked s, Access.counters s))
  = (Throw (PermissionError "example"), [Access.AccessCheck], 10%nat)
  /\ (let '(outcome, s) :=
        Access.validateToolExecution (helpers ["tools:call"]) "example" [] context controller in
      (outcome, Access.checked s, Access.counters s))
     = (Throw (RateLimitError "example"), [Access.AccessCheck; Access.RateLimitCheck], 11%nat).
Proof. split; reflexivity. Qed.

Example heartbeat_run :
  let start :=
    {| Heartbeat.lastHeartbeatTime := 0; Heartbeat.probes := []; Heartbeat.missCount := 0;
       Heartbeat.countedFrom := 0; Heartbeat.connection := Connection.Ready |} in
  let miss (t : Z) := (false, t, t) in
  let answer (t : Z) := (true, t, (t + 1)%Z) in
  Heartbeat.connection
    (Heartbeat.beats 2
       [miss 30%Z; miss 60%Z; answer 90%Z; miss 120%Z; miss 150%Z] start)
  = Connection.Ready
  /\ Heartbeat.connection
       (Heartbeat.beats 2 [answer 30%Z; miss 60%Z; miss 90%Z; miss 120%Z] start)
     = Connection.Degraded.
Proof. split; reflexivity. Qed.

End Runs.

(** ** Batches *)

Section BatchFacts.

Import Batches.

Context {A : Type}.
Variables (batchSize : nat) (requests : list A).
Hypothesis batchSize_positive : 0 < batchSize.

Lemma full_splits (batches : list (list A)) :
  full batchSize batches -> concat batches = requests -> splits batchSize requests batches.
Proof.
  intros Hfull Hconcat. split; [exact Hconcat|]. unfold full in Hfull.
  rewrite Forall_lookup in Hfull.
  split; intros k batch Hk; [rewrite (Hfull _ _ Hk); lia | intros _; eauto].
Qed.

Lemma createBatches_from_done (turns i : nat) (batches : list (list A)) :
  length requests <= i ->
  createBatches_from turns batchSize requests i batches = batches.
Proof.
  intros Hi. destruct turns; [reflexivity|]. simpl.
  destruct (Nat.ltb_spec i (length requests)); [lia | reflexivity].
Qed.

Lemma createBatches_from_splits (turns i : nat) (batches : list (list A)) :
  i <= length requests -> length requests - i <= turns ->
  full batchSize batches -> concat batches = take i requests ->
  splits batchSize requests (createBatches_from turns batchSize requests i batches).
Proof.
  revert i batches. induction turns as [|turns IH]; intros i batches Hi Hturns Hfull Hconcat.
  - simpl. apply full_splits; [exact Hfull|].
    rewrite Hconcat. apply take_ge. lia.
  - simpl. destruct (Nat.ltb_spec i (length requests)) as [Hlt|Hge].
    + assert (Hnew : concat (batches ++ [slice i (i + batchSize) requests])
                     = take (i + batchSize) requests).
      { rewrite concat_app, Hconcat. simpl. rewrite app_nil_r. unfold slice.
        replace (i + batchSize - i) with batchSize by lia. apply take_take_drop. }
      destruct (Nat.le_gt_cases (i + batchSize) (length requests)) as [Hfit|Hlast].
      * apply IH; [exact Hfit | lia | | exact Hnew].
        apply Forall_app. split; [exact Hfull|]. constructor; [|constructor].
        unfold slice. rewrite length_take, length_drop. lia.
      * rewrite createBatches_from_done by lia.
        split; [rewrite Hnew; apply take_ge; lia|].
        unfold full in Hfull. rewrite Forall_lookup in Hfull.
        assert (Hlen : 0 < length (slice i (i + batchSize) requests) <= batchSize).
        { unfold slice. rewrite length_take, length_drop. lia. }
        split; intros k batch Hk.
        -- apply lookup_app_Some in Hk as [Hk|[_ Hk]].
           ++ rewrite (Hfull _ _ Hk). lia.
           ++ apply list_lookup_singleton_Some in Hk as [_ <-]. exact Hlen.
        -- rewrite length_app. simpl. intros Hk'.
           apply lookup_app_Some in Hk as [Hk|[Hk _]]; [eauto | lia].
    + apply full_splits; [exact Hfull|].
      rewrite Hconcat. apply take_ge. lia.
Qed.

Lemma createBatches_splits : splits batchSize requests (createBatches batchSize requests).
Proof.
  apply createBatches_from_splits; [lia | lia | constructor | reflexivity].
Qed.

End BatchFacts.

Section BatchExecution.

Import Batches.

(** X6: [createBatches] loses and repeats nothing and keeps the order:
    the batches put end to end are the requests.  No batch is empty,
    none holds more than the batch size (five for tools and prompts,
    ten for resources), and every batch but the last is full; no
    requests give no batches. *)
Theorem createBatches_partition {A : Type} (requests : list A) :
  splits toolBatchSize requests (createBatches toolBatchSize requests)
  /\ splits promptBatchSize requests (createBatches promptBatchSize requests)
  /\ splits resourceBatchSize requests (createBatches resourceBatchSize requests)
  /\ createBatches toolBatchSize (@nil A) = [].
Proof.
  split; [|split; [|split; [|reflexivity]]];
    apply createBatches_splits; unfold toolBatchSize, promptBatchSize, resourceBatchSize; lia.
Qed.

Lemma distributes_nil {X Y} (f : list X -> list Y) :
  (forall a b, f (a ++ b) = f a ++ f b) -> f [] = [].
Proof.
  intros Hf. pose proof (Hf [] []) as H. simpl in H.
  destruct (f []) as [|y l]; [reflexivity|].
  apply (f_equal length) in H. rewrite length_app in H. simpl in H. lia.
Qed.

Lemma executeBatch_fold {Req Res Out} (settled : Req -> Completion Res)
    (processBatchResults : list (Completion Res) -> list Out)
    (batches : list (list Req)) (results : list Out) :
  (forall a b, processBatchResults (a ++ b) = processBatchResults a ++ processBatchResults b) ->
  fold_left (fun results batch => results ++ processBatchResults (map settled batch))
    batches results
  = results ++ processBatchResults (map settled (concat batches)).
Proof.
  intros Hp. revert results. induction batches as [|batch batches IH]; intros results; simpl.
  - now rewrite (distributes_nil _ Hp), app_nil_r.
  - now rewrite IH, map_app, Hp, app_assoc.
Qed.

(** X7: when [processBatchResults] treats the outcomes one by one (it
    distributes over concatenation), the result of [executeBatch] is
    what processing the outcomes of all the requests at once gives, in
    the order of the requests: cutting them into batches of five does
    not show in the result. *)
Theorem executeBatch_ignores_batching {Req Res Out} (settled : Req -> Completion Res)
    (processBatchResults : list (Completion Res) -> list Out) (requests : list Req) :
  (forall a b, processBatchResults (a ++ b) = processBatchResults a ++ processBatchResults b) ->
  executeBatch settled processBatchResults requests
  = processBatchResults (map settled requests).
Proof.
  intros Hp. unfold executeBatch. rewrite executeBatch_fold by exact Hp. simpl.
  destruct (createBatches_splits toolBatchSize requests) as [-> _];
    [unfold toolBatchSize; lia | reflexivity].
Qed.

Lemma executeBatch_ignores_batching_witness :
  executeBatch (fun n : nat => if (n <? 3)%nat then Normal n else Throw TimeoutError)
    (map (fun outcome => match outcome with Normal n => Some n | Throw _ => None end))
    (seq 0 7)
  = map (fun outcome => match outcome with Normal n => Some n | Throw _ => None end)
      (map (fun n : nat => if (n <? 3)%nat then Normal n else Throw TimeoutError) (seq 0 7)).
Proof.
  apply (executeBatch_ignores_batching
           (fun n : nat => if (n <? 3)%nat then Normal n else Throw TimeoutError)
           (map (fun outcome => match outcome with Normal n => Some n | Throw _ => None end))
           (seq 0 7)).
  intros a b. apply map_app.
Defined.

End BatchExecution.

(** ** Runs of the tool cache manager *)

Section CacheRunFacts.

Import Js Schema Client CacheRuns.

Variable server : Server.

(** What one call of [getTool] does to the state, whatever its
    arguments: nothing, one failed fetch, or one fetch stored under the
    name. *)
Lemma getTool_state (now fetched : Z) (name : string) (forceRefresh : bool) (s : State) :
  let s' := snd (getTool server now fetched name forceRefresh s) in
  s' = s
  \/ s' = transmit (FetchTool name) s
  \/ exists t, s' = cache_set name {| tool := t; timestamp := fetched; ttl := ttl_of t |}
                     (transmit (FetchTool name) s).
Proof.
  cbv zeta. unfold getTool, bind, read, fetchToolFromServer, modify, ret. simpl.
  destruct (cache s !! name) as [cached|]; simpl.
  - destruct (negb forceRefresh && negb (isCacheExpired now cached)); simpl; [now left|].
    destruct (definition server (sent s) name); simpl; eauto.
  - destruct (definition server (sent s) name); simpl; eauto.
Qed.

Lemma getTool_keeps_entries_fetched (now fetched : Z) (name : string)
    (forceRefresh : bool) (s : State) :
  entries_fetched s ->
  entries_fetched (snd (getTool server now fetched name forceRefresh s)).
Proof.
  intros Hs. destruct (getTool_state now fetched name forceRefresh s) as [->|[->|[t ->]]].
  - exact Hs.
  - intros k entry Hk. destruct (Hs k entry Hk) as [Httl Hin].
    split; [exact Httl|]. simpl. apply in_or_app. now left.
  - intros k entry Hk. simpl in *. rewrite lookup_insert in Hk.
    case_decide as Hname.
    + injection Hk as <-. subst k. split; [reflexivity|].
      apply in_or_app. right. now left.
    + destruct (Hs k entry Hk) as [Httl Hin].
      split; [exact Httl|]. apply in_or_app. now left.
Qed.

Lemma getTool_sent_length (now fetched : Z) (name : string) (forceRefresh : bool) (s : State) :
  length (sent s) <= length (sent (snd (getTool server now fetched name forceRefresh s)))
  <= S (length (sent s)).
Proof.
  destruct (getTool_state now fetched name forceRefresh s) as [->|[->|[t ->]]];
    simpl; rewrite ?length_app; simpl; lia.
Qed.

Lemma getTools_invariant (reads : list Read) (s : State) :
  entries_fetched s ->
  entries_fetched (getTools server reads s)
  /\ length (sent (getTools server reads s)) <= length (sent s) + length reads.
Proof.
  revert s. induction reads as [|r rest IH]; intros s Hs; simpl; [split; [exact Hs | lia]|].
  destruct (IH _ (getTool_keeps_entries_fetched (read_now r) (read_fetched r) (read_name r)
                    (read_forceRefresh r) s Hs)) as [Hinv Hlen].
  split; [exact Hinv|].
  pose proof (getTool_sent_length (read_now r) (read_fetched r) (read_name r)
                (read_forceRefresh r) s). lia.
Qed.

(** X8: whatever calls of [getTool] a new cache manager has served,
    with whatever names, clocks and refresh flags and whatever the
    server answered, every cache entry carries the time to live of its
    tool's class (one hour for a static tool, five minutes otherwise)
    and sits under a name that was fetched from the server, and at most
    one transmission was made for each call. *)
Theorem getTools_entries_fetched (reads : list Read) :
  let s := getTools server reads {| cache := ∅; sent := [] |} in
  (forall name entry, cache s !! name = Some entry ->
     ttl entry = (if static (tool entry) then 3600000 else 300000)%Z
     /\ In (FetchTool name) (sent s))
  /\ length (sent s) <= length reads.
Proof.
  cbv zeta.
  destruct (getTools_invariant reads {| cache := ∅; sent := [] |}) as [Hinv Hlen].
  { intros name entry Hk. simpl in Hk. rewrite lookup_empty in Hk. discriminate. }
  split; [|exact Hlen]. intros name entry Hk. exact (Hinv name entry Hk).
Qed.

(** X9: a forced refresh never answers from the cache: it makes
    exactly one transmission even when the entry is still valid, and
    when the server answers it replaces the entry.  When the fetch
    fails, forced or after a miss, the error is thrown as it is and
    the cache is left as it was, so an expired entry stays in it. *)
Theorem getTool_refresh_and_failure (now fetched : Z) (name : string) (s : State) :
  sent (snd (getTool server now fetched name true s)) = sent s ++ [FetchTool name]
  /\ (forall t, definition server (sent s) name = Normal t ->
        fst (getTool server now fetched name true s) = Normal t
        /\ cache (snd (getTool server now fetched name true s)) !! name
           = Some {| tool := t; timestamp := fetched; ttl := ttl_of t |})
  /\ (forall e forceRefresh, definition server (sent s) name = Throw e ->
        forceRefresh = true \/ cached_valid now name s = None ->
        getTool server now fetched name forceRefresh s
        = (Throw e, transmit (FetchTool name) s)).
Proof.
  assert (Hforced : getTool server now fetched name true s
                    = match definition server (sent s) name with
                      | Normal t =>
                          (Normal t,
                           cache_set name {| tool := t; timestamp := fetched; ttl := ttl_of t |}
                             (transmit (FetchTool name) s))
                      | Throw e => (Throw e, transmit (FetchTool name) s)
                      end).
  { unfold getTool, bind, read, fetchToolFromServer, modify, ret. simpl.
    destruct (cache s !! name); simpl; destruct (definition server (sent s) name); reflexivity. }
  split; [|split].
  - rewrite Hforced. destruct (definition server (sent s) name); reflexivity.
  - intros t Ht. rewrite Hforced, Ht. simpl. split; [reflexivity | apply lookup_insert_eq].
  - intros e forceRefresh He [->|Hmiss].
    + now rewrite Hforced, He.
    + destruct forceRefresh; [now rewrite Hforced, He|].
      now rewrite (getTool_miss server now fetched name s Hmiss), He.
Qed.

End CacheRunFacts.

(** ** A call that passes validation *)

Section CallToolTransmitted.

Import Js Schema Validator Client Executor.

Context {Result : Type}.
Variables (h : Helpers Result) (server : Server).

(** X10: a call whose arguments pass validation puts exactly one
    request on the wire, a [tools/call] that carries the name of the
    tool and the sanitized arguments.  It ends with the processed
    result, or with the tool error made of whatever the request or the
    processing of the response threw: code 5000 for a timeout, 6000 for
    a permission error, 5001 for every other error, a rate limit or
    quota error included.  No bare error leaves [callTool] once the
    request is sent. *)
Theorem callTool_one_request_or_tool_error
    (name : string) (args : Entries) (s s1 : State) (tool : Tool) :
  getToolDefinition h name s = (Normal tool, s1) ->
  valid (validateArguments (checkType h) tool args) = true ->
  let request :=
    {| jsonrpc := "2.0"; id := generateRequestId h (sent s1); method := "tools/call";
       params := JObj [("name", JStr (Schema.name tool));
                       ("arguments", sanitizeArguments h args)] |} in
  let outcome := fst (callTool h server name args s) in
  let thrown (error : Thrown) :=
    respond server (sent s1) request = Throw error
    \/ exists response, respond server (sent s1) request = Normal response
         /\ processToolResponse h response tool = Throw error in
  sent (snd (callTool h server name args s)) = sent s1 ++ [Request request]
  /\ (forall response result,
        respond server (sent s1) request = Normal response ->
        processToolResponse h response tool = Normal result ->
        outcome = Normal result)
  /\ (forall error, thrown error ->
        exists toolError, outcome = Throw (Handled toolError)
          /\ code toolError
             = match error with
               | TimeoutError => 5000
               | PermissionError _ => 6000
               | _ => 5001
               end%Z)
  /\ (forall e, outcome = Throw e ->
        exists error toolError, thrown error /\ e = Handled toolError).
Proof.
  intros Hdef Hvalid. cbv zeta.
  unfold callTool, bind. rewrite Hdef, Hvalid. simpl.
  unfold try_catch, bind, session_request, read, lift, throw. simpl.
  match goal with |- context [respond server ?l ?r] =>
    destruct (respond server l r) as [response|e] eqn:Hr end; simpl.
  - destruct (processToolResponse h response tool) as [result|e] eqn:Hp; simpl.
    + split; [reflexivity|]. split; [|split].
      * intros response' result' [= <-]. congruence.
      * intros error [Hthrown|(response' & [= <-] & Hthrown)]; congruence.
      * discriminate.
    + split; [reflexivity|]. split; [|split].
      * intros response' result' [= <-]. congruence.
      * intros error [Hthrown|(response' & [= <-] & Hthrown)]; [discriminate|].
        assert (error = e) as -> by congruence.
        eexists. split; [reflexivity|]. destruct e; reflexivity.
      * intros e' [= <-]. exists e. eexists. split; [|reflexivity]. right. eauto.
  - split; [reflexivity|]. split; [discriminate|]. split.
    + intros error [[= <-]|(response' & Hresponse & _)]; [|discriminate].
      eexists. split; [reflexivity|]. destruct e; reflexivity.
    + intros e' [= <-]. exists e. eexists. split; [|reflexivity]. now left.
Qed.

End CallToolTransmitted.

Section CallToolTransmittedRun.

Import Js Schema Validator Client Executor Example.

(** Arguments the example tool accepts, sent to a server that does not
    answer in time. *)
Lemma callTool_one_request_or_tool_error_witness :
  let args := [("a", JNum 1); ("b", JStr "x")] in
  let request :=
    {| jsonrpc := "2.0"; id := generateRequestId example_helpers (sent fresh);
       method := "tools/call";
       params := JObj [("name", JStr (Schema.name example_tool));
                       ("arguments", sanitizeArguments example_helpers args)] |} in
  let outcome := fst (callTool example_helpers silent_server "example" args fresh) in
  let thrown (error : Thrown) :=
    respond silent_server (sent fresh) request = Throw error
    \/ exists response, respond silent_server (sent fresh) request = Normal response
         /\ processToolResponse example_helpers response example_tool = Throw error in
  sent (snd (callTool example_helpers silent_server "example" args fresh))
  = sent fresh ++ [Request request]
  /\ (forall response result,
        respond silent_server (sent fresh) request = Normal response ->
        processToolResponse example_helpers response example_tool = Normal result ->
        outcome = Normal result)
  /\ (forall error, thrown error ->
        exists toolError, outcome = Throw (Handled toolError)
          /\ code toolError
             = match error with
               | TimeoutError => 5000
               | PermissionError _ => 6000
               | _ => 5001
               end%Z)
  /\ (forall e, outcome = Throw e ->
        exists error toolError, thrown error /\ e = Handled toolError).
Proof.
  apply (callTool_one_request_or_tool_error example_helpers silent_server "example"
           [("a", JNum 1); ("b", JStr "x")] fresh fresh example_tool); reflexivity.
Defined.

End CallToolTransmittedRun.

(** ** A call that fails validation *)

Section CallToolRejected.

Import Js Schema Validator Violation Client Executor.

Context {Result : Type}.
Variables (h : Helpers Result) (server : Server).

(** X25: when a required parameter is missing and its name is not that
    of a member of [Object.prototype], or [checkType] has a message for
    a supplied argument the schema declares, the call ends in one
    [ValidationError] and nothing is transmitted for it: the state is
    the one the resolution of the tool definition left.  The error
    carries the validator's whole list, which holds a message for every
    such missing parameter and every such answer of [checkType]. *)
Theorem callTool_rejects_before_sending
    (name : string) (args : Entries) (s s1 : State) (tool : Tool) :
  getToolDefinition h name s = (Normal tool, s1) ->
  (exists param, missing (inputSchema tool) args param /\ inherits param = false)
  \/ (exists param value paramSchema,
        In (param, value) args /\ declared (inputSchema tool) param = Some paramSchema
        /\ is_Some (checkType h param value paramSchema)) ->
  exists errs,
    callTool h server name args s = (Throw (ValidationError errs), s1)
    /\ errs = errors (validateArguments (checkType h) tool args)
    /\ (forall param, missing (inputSchema tool) args param -> inherits param = false ->
          In (MissingRequired param) errs)
    /\ (forall param value paramSchema e,
          In (param, value) args -> declared (inputSchema tool) param = Some paramSchema ->
          checkType h param value paramSchema = Some e -> In e errs).
Proof.
  intros Hdef Hfound.
  set (errs := errors (validateArguments (checkType h) tool args)).
  assert (Hmissing : forall param, missing (inputSchema tool) args param ->
            inherits param = false -> In (MissingRequired param) errs).
  { intros param Hm Hi. unfold errs. rewrite validateArguments_errors.
    apply in_or_app. left. apply missing_required_spec. auto. }
  assert (Hchecked : forall param value paramSchema e,
            In (param, value) args -> declared (inputSchema tool) param = Some paramSchema ->
            checkType h param value paramSchema = Some e -> In e errs).
  { intros param value paramSchema e Hin Hd He. unfold errs.
    rewrite validateArguments_errors. apply in_or_app. right.
    exact (checkArgument_complete (checkType h) _ _ _ _ _ _ Hin
             (property_declared _ _ _ Hd) He). }
  assert (Hinvalid : valid (validateArguments (checkType h) tool args) = false).
  { apply result_of_valid. change (errs <> []).
    destruct Hfound as [(param & Hm & Hi)|(param & value & paramSchema & Hin & Hd & [e He])].
    - intros Hnil. pose proof (Hmissing _ Hm Hi) as H. rewrite Hnil in H. destruct H.
    - intros Hnil. pose proof (Hchecked _ _ _ _ Hin Hd He) as H. rewrite Hnil in H.
      destruct H. }
  exists errs. rewrite (callTool_invalid h server name args s s1 tool Hdef Hinvalid).
  repeat split; assumption.
Qed.

End CallToolRejected.

Section CallToolRejectedRun.

Import Js Schema Validator Violation Client Executor Example.

(** The theorem of X25 at the example of the specification. *)
Lemma callTool_rejects_before_sending_witness :
  exists errs,
    callTool example_helpers silent_server "example" example_arguments fresh
    = (Throw (ValidationError errs), fresh)
    /\ errs = errors (validateArguments (checkType example_helpers) example_tool
                       example_arguments)
    /\ (forall param, missing (inputSchema example_tool) example_arguments param ->
          inherits param = false -> In (MissingRequired param) errs)
    /\ (forall param value paramSchema e,
          In (param, value) example_arguments ->
          declared (inputSchema example_tool) param = Some paramSchema ->
          checkType example_helpers param value paramSchema = Some e -> In e errs).
Proof.
  apply (callTool_rejects_before_sending example_helpers silent_server "example"
           example_arguments fresh fresh example_tool); [reflexivity|].
  right. exists "a", (JStr "not-a-number"), number_schema.
  split; [now left|]. split; [reflexivity|]. eexists. reflexivity.
Defined.

End CallToolRejectedRun.

(** ** What the message handler accepts *)

Section SerializerFacts.

Import Js Codec Serializer.

Lemma same_value_zero_string (v : JValue) (s : string) :
  same_value_zero v (JStr s) = true <-> v = JStr s.
Proof.
  destruct v; simpl; try (split; discriminate).
  rewrite String.eqb_eq. split; congruence.
Qed.

Lemma validateMessage_accepts (message : JValue) :
  validateMessage message = Normal tt <-> versioned message.
Proof.
  unfold validateMessage, versioned, field. split.
  - destruct message; simpl; try discriminate.
    destruct (same_value_zero (get fields "jsonrpc") (JStr "2.0")) eqn:Hv; [|discriminate].
    intros _. exists fields. split; [reflexivity|]. now apply same_value_zero_string.
  - intros (fields & -> & Hv). now rewrite Hv.
Qed.

Lemma validateMessage_rejects (message : JValue) (e : Thrown) :
  validateMessage message = Throw e ->
  (nullish message = true /\ e = TypeError)
  \/ (nullish message = false /\ ~ versioned message
      /\ e = Error "Invalid JSON-RPC version").
Proof.
  intros He.
  assert (Hnot : ~ versioned message).
  { intros Hv. apply validateMessage_accepts in Hv. congruence. }
  unfold validateMessage, field in He.
  destruct message; simpl in *;
    try (injection He as <-; auto; fail).
  destruct (same_value_zero (get fields "jsonrpc") (JStr "2.0")); [discriminate|].
  injection He as <-. auto.
Qed.

(** X11: [deserialize] returns a message exactly when the text parses
    to an object whose [jsonrpc] field is the string [2.0], and then it
    returns that object untouched.  Otherwise it throws: the parser's
    error, a [TypeError] when the text parses to null, and the error
    [Invalid JSON-RPC version] for anything else, a message with the
    number 2 as its version included.  So a message read back from its
    own serialization is returned exactly when it carries the version
    tag. *)
Theorem deserialize_accepts_versioned_objects (parse : string -> Completion JValue) :
  (forall data message, deserialize parse data = Normal message <->
     parse data = Normal message /\ versioned message)
  /\ (forall data e, deserialize parse data = Throw e ->
        parse data = Throw e
        \/ (parse data = Normal JNull /\ e = TypeError)
        \/ (parse data = Normal JUndefined /\ e = TypeError)
        \/ (exists message, parse data = Normal message /\ ~ versioned message
              /\ e = Error "Invalid JSON-RPC version"))
  /\ (forall stringify message,
        parse (serialize stringify message) = Normal message ->
        (deserialize parse (serialize stringify message) = Normal message
         <-> versioned message)).
Proof.
  assert (Haccept : forall data message, deserialize parse data = Normal message <->
            parse data = Normal message /\ versioned message).
  { intros data message. unfold deserialize.
    destruct (parse data) as [parsed|e]; [|split; [discriminate | intros [[=] _]]].
    destruct (validateMessage parsed) as [[]|e] eqn:Hv.
    - apply validateMessage_accepts in Hv.
      split; [intros [= <-]; auto | intros [[= <-] _]; reflexivity].
    - split; [discriminate|]. intros [[= <-] Hm].
      apply validateMessage_accepts in Hm. congruence. }
  split; [exact Haccept|]. split.
  - intros data e. unfold deserialize.
    destruct (parse data) as [parsed|e']; [|intros [= <-]; now left].
    destruct (validateMessage parsed) as [[]|e'] eqn:Hv; [discriminate|].
    intros [= <-]. right.
    destruct (validateMessage_rejects _ _ Hv) as [[Hn ->]|(Hn & Hnot & ->)].
    + destruct parsed; try discriminate Hn; auto.
    + right. right. eauto.
  - intros stringify message Hparse. rewrite Haccept. tauto.
Qed.

End SerializerFacts.

(** ** A transport the switch does not name *)

Section UnknownTransport.

Import Connection.

(** X12: [establishConnection] has no default case, so a configuration
    whose transport is none of stdio, sse and websocket opens no
    channel and still succeeds: [connect] ends in CONNECTED with the
    reconnect counter at zero, whatever the three connectors and the
    error handler would do, since none of them is called. *)
Theorem connect_unknown_transport (config : ConnectionConfig) (m : ConnectionManager) :
  transport config <> "stdio" -> transport config <> "sse" ->
  transport config <> "websocket" ->
  forall h : Helpers,
    state (connect h config m) = CONNECTED
    /\ reconnectAttempts (connect h config m) = 0%Z
    /\ assigned (connect h config m) = assigned m ++ [CONNECTING; CONNECTED]
    /\ forall h' : Helpers, connect h' config m = connect h config m.
Proof.
  intros H1 H2 H3 h.
  assert (Hany : forall k : Helpers, establishConnection k config = Normal tt).
  { intros k. unfold establishConnection.
    apply String.eqb_neq in H1, H2, H3. now rewrite H1, H2, H3. }
  rewrite (connect_established h _ _ (Hany h)). simpl.
  rewrite <- app_assoc. repeat split.
  intros h'. now rewrite (connect_established h' _ _ (Hany h')).
Qed.

Lemma connect_unknown_transport_witness :
  state (connect opening {| transport := "http" |} initial) = CONNECTED
  /\ reconnectAttempts (connect opening {| transport := "http" |} initial) = 0%Z
  /\ assigned (connect opening {| transport := "http" |} initial)
     = assigned initial ++ [CONNECTING; CONNECTED]
  /\ forall h' : Helpers,
       connect h' {| transport := "http" |} initial
       = connect opening {| transport := "http" |} initial.
Proof.
  apply (connect_unknown_transport {| transport := "http" |} initial); discriminate.
Defined.

End UnknownTransport.

(** ** Starting and stopping the heartbeat *)

Section IntervalFacts.

Import Intervals.

Lemma starts_state (n : nat) :
  starts n initial
  = {| intervalId := match n with O => None | S k => Some n end;
       running := seq 1 n; next := S n |}.
Proof.
  induction n as [|n IH]; [reflexivity|].
  simpl. rewrite IH. unfold startHeartbeat. simpl.
  f_equal. change (1 :: seq 2 n) with (seq 1 (S n)).
  now rewrite seq_S.
Qed.

Lemma filter_below (n : nat) (l : list nat) :
  Forall (fun r => r < n) l ->
  List.filter (fun r => negb (r =? n)%nat) l = l.
Proof.
  induction 1 as [|r l Hr _ IH]; simpl; [reflexivity|].
  destruct (Nat.eqb_spec r n); [lia|]. simpl. now rewrite IH.
Qed.

(** X13: [startHeartbeat] overwrites [intervalId] without clearing the
    interval it held, and [stopHeartbeat] clears only the interval
    [intervalId] names.  So after [n + 1] starts on a new manager, a
    stop leaves the first [n] intervals running, and stopping again
    changes nothing; a stop before any start does nothing. *)
Theorem stopHeartbeat_clears_last_interval_only (n : nat) :
  running (stopHeartbeat (starts (S n) initial)) = seq 1 n
  /\ stopHeartbeat (stopHeartbeat (starts (S n) initial))
     = stopHeartbeat (starts (S n) initial)
  /\ stopHeartbeat initial = initial.
Proof.
  assert (Hkeep : List.filter (fun r => negb (r =? S n)%nat) (seq 1 n) = seq 1 n).
  { apply filter_below, List.Forall_forall. intros r Hr. apply in_seq in Hr. lia. }
  rewrite starts_state. unfold stopHeartbeat at 1 3 4. cbn [intervalId running next].
  rewrite seq_S, List.filter_app, Hkeep. simpl.
  rewrite Nat.eqb_refl. simpl. rewrite app_nil_r.
  repeat split. unfold stopHeartbeat. simpl. now rewrite Hkeep.
Qed.

End IntervalFacts.

(** ** The prompt content sanitizer *)

Section PromptContentFacts.

Import Sanitizer PromptContent.

Lemma trim_end_ends_clean (l : list ascii) : ends_clean (trim_end l).
Proof.
  induction l as [|c rest IH]; intros front d Heq; simpl in Heq.
  - destruct front; discriminate.
  - destruct (trim_end rest) as [|k ks] eqn:Hrest.
    + destruct (white_space c) eqn:Hc; [destruct front; discriminate|].
      destruct front as [|x front]; [now injection Heq as <-|].
      injection Heq as _ Heq. destruct front; discriminate.
    + destruct front as [|x front]; [discriminate|].
      injection Heq as _ Heq. exact (IH front d Heq).
Qed.

(** X14: content whose MIME type is neither text/html nor
    application/javascript is cleaned by the default text sanitizer.
    What comes out holds none of the characters less-than,
    greater-than, double quote and single quote and no line break,
    does not start or end with white space, and is left unchanged by a
    second pass. *)
Theorem sanitizePromptContent_default (r : Registered) (content mimeType : string) :
  mimeType <> "text/html" -> mimeType <> "application/javascript" ->
  let out := sanitizePromptContent r content mimeType in
  out = sanitizeText content
  /\ Forall (fun c => unsafe_char c = false /\ c <> CR /\ c <> LF) (list_ascii_of_string out)
  /\ starts_clean (list_ascii_of_string out)
  /\ ends_clean (list_ascii_of_string out)
  /\ sanitizePromptContent r out mimeType = out.
Proof.
  intros Hhtml Hjs. cbv zeta.
  assert (Hdefault : forall text, sanitizePromptContent r text mimeType = sanitizeText text).
  { intros text. unfold sanitizePromptContent.
    apply String.eqb_neq in Hhtml, Hjs. now rewrite Hhtml, Hjs. }
  rewrite !Hdefault. split; [reflexivity|].
  split; [|split; [|split; [|apply sanitizeText_idempotent]]].
  - pose proof (sanitizeText_chars content) as Hsafe.
    assert (Hnl : Forall no_newline (list_ascii_of_string (sanitizeText content))).
    { unfold sanitizeText. rewrite list_ascii_of_string_of_list_ascii.
      apply trim_all, newlines_to_spaces_none. }
    rewrite List.Forall_forall in *. intros c Hc. split; [now apply Hsafe | now apply Hnl].
  - unfold sanitizeText. rewrite list_ascii_of_string_of_list_ascii.
    apply trim_end_clean, trim_start_clean.
  - unfold sanitizeText. rewrite list_ascii_of_string_of_list_ascii.
    apply trim_end_ends_clean.
Qed.

Lemma sanitizePromptContent_default_witness :
  let r := {| sanitizeHTML := fun s => s; sanitizeJavaScript := fun s => s |} in
  let out := sanitizePromptContent r " <b>hi</b> " "text/plain" in
  out = sanitizeText " <b>hi</b> "
  /\ Forall (fun c => unsafe_char c = false /\ c <> CR /\ c <> LF) (list_ascii_of_string out)
  /\ starts_clean (list_ascii_of_string out)
  /\ ends_clean (list_ascii_of_string out)
  /\ sanitizePromptContent r out "text/plain" = out.
Proof.
  apply (sanitizePromptContent_default
           {| sanitizeHTML := fun s => s; sanitizeJavaScript := fun s => s |}
           " <b>hi</b> " "text/plain"); discriminate.
Defined.

End PromptContentFacts.

(** ** Nothing is lost between the batcher and the wire *)

Section BatcherRunFacts.

Import Js Client Batcher BatcherRuns.

Context {B : Type}.
Variable h : Helpers B.

Lemma flushBatch_state (s : MessageBatcher B) :
  snd (flushBatch h s)
  = {| batch := []; timers := timers s;
       wire := wire s ++ [createBatchRequest h (batch s)] |}.
Proof.
  unfold flushBatch. destruct (transport_send h (createBatchRequest h (batch s))); reflexivity.
Qed.

Lemma sendMessage_state (message : RPCRequest) (s : MessageBatcher B) :
  snd (sendMessage h message s)
  = if (batchSize <=? length (batch s ++ [message]))%nat then
      {| batch := []; timers := timers s;
         wire := wire s ++ [createBatchRequest h (batch s ++ [message])] |}
    else
      {| batch := batch s ++ [message];
         timers := if (length (batch s ++ [message]) =? 1)%nat then S (timers s) else timers s;
         wire := wire s |}.
Proof.
  unfold sendMessage. cbn [batch timers wire].
  destruct (batchSize <=? length (batch s ++ [message]))%nat.
  - pose proof (flushBatch_state
                  {| batch := batch s ++ [message]; timers := timers s; wire := wire s |}) as Hf.
    destruct (flushBatch h _) as [[response|e] s']; simpl in *; exact Hf.
  - destruct (length (batch s ++ [message]) =? 1)%nat; reflexivity.
Qed.

Lemma sendMessage_carried (done : list RPCRequest) (message : RPCRequest)
    (s : MessageBatcher B) :
  carried h done s -> carried h (done ++ [message]) (snd (sendMessage h message s)).
Proof.
  intros (batches & Hwire & Hdone & Hfull & Hlen & Htimer).
  rewrite sendMessage_state. rewrite length_app. cbn [length].
  destruct (Nat.leb_spec batchSize (length (batch s) + 1)) as [Hflush|Hkeep].
  - exists (batches ++ [batch s ++ [message]]). cbn [batch timers wire].
    split; [now rewrite Hwire, map_app|].
    split; [rewrite concat_app; simpl; rewrite !app_nil_r, <- Hdone; now rewrite app_assoc|].
    split; [|split; [unfold batchSize; simpl; lia | congruence]].
    apply Forall_app. split; [exact Hfull|].
    constructor; [|constructor]. rewrite length_app. simpl. lia.
  - exists batches. cbn [batch timers wire].
    split; [exact Hwire|]. split; [now rewrite <- Hdone, app_assoc|].
    split; [exact Hfull|]. split; [rewrite length_app; simpl; lia|].
    intros _. destruct (Nat.eqb_spec (length (batch s) + 1) 1) as [H1|H1]; [lia|].
    apply Htimer. intros Hnil. rewrite Hnil in H1. simpl in H1. lia.
Qed.

Lemma sendAll_cons_state (message : RPCRequest) (rest : list RPCRequest)
    (s : MessageBatcher B) :
  snd (sendAll h (message :: rest) s) = snd (sendAll h rest (snd (sendMessage h message s))).
Proof.
  cbn [sendAll]. destruct (sendMessage h message s) as [o s1]. cbn [snd].
  destruct (sendAll h rest s1) as [os s2]. reflexivity.
Qed.

Lemma sendAll_carried (messages done : list RPCRequest) (s : MessageBatcher B) :
  carried h done s -> carried h (done ++ messages) (snd (sendAll h messages s)).
Proof.
  revert done s. induction messages as [|message rest IH]; intros done s Hs.
  - simpl. now rewrite app_nil_r.
  - rewrite sendAll_cons_state.
    replace (done ++ message :: rest) with ((done ++ [message]) ++ rest)
      by now rewrite <- app_assoc.
    apply IH, sendMessage_carried, Hs.
Qed.

(** Every pending timeout fires: the first flushes the batch in the
    making, the others flush an empty batch. *)
Lemma fire_all (n : nat) (s : MessageBatcher B) :
  timers s = n ->
  exists extra,
    wire (fire h n s) = wire s ++ map (createBatchRequest h) extra
    /\ concat extra = match n with O => [] | S _ => batch s end
    /\ Forall (fun b => length b <= length (batch s)) extra
    /\ batch (fire h n s) = match n with O => batch s | S _ => [] end
    /\ timers (fire h n s) = 0.
Proof.
  revert s. induction n as [|n IH]; intros s Hn.
  - exists []. simpl. rewrite app_nil_r. repeat split; [constructor | exact Hn].
  - cbn [fire]. unfold timeout. rewrite Hn, flushBatch_state. cbn [batch timers wire].
    destruct (IH {| batch := []; timers := n;
                    wire := wire s ++ [createBatchRequest h (batch s)] |} eq_refl)
      as (extra & Hwire & Hconcat & Hsmall & Hbatch & Htimers).
    cbn [batch timers wire] in *.
    exists (batch s :: extra). split; [now rewrite Hwire, <- app_assoc|].
    split; [simpl; rewrite Hconcat; destruct n; apply app_nil_r|].
    split; [constructor; [lia|]; eapply List.Forall_impl; [|exact Hsmall]; simpl; lia|].
    split; [rewrite Hbatch; now destruct n | exact Htimers].
Qed.

(** X17: however many messages arrive in a window, once the timeouts
    have fired the batch requests on the wire carry every message
    exactly once and in the order of arrival: the batches they were
    built from, put end to end, are the messages.  No batch holds more
    than the size limit, and nothing is left in the batcher. *)
Theorem window_carries_every_message (messages : list RPCRequest) :
  let s := snd (window h messages initial) in
  exists batches,
    wire s = map (createBatchRequest h) batches
    /\ concat batches = messages
    /\ Forall (fun b => length b <= batchSize) batches
    /\ batch s = []
    /\ timers s = 0.
Proof.
  cbv zeta. unfold window.
  assert (Hinit : carried h [] (@initial B)).
  { exists []. simpl. repeat split; [constructor | unfold batchSize; lia | congruence]. }
  pose proof (sendAll_carried messages [] initial Hinit) as Hsent.
  destruct (sendAll h messages initial) as [outcomes s]. cbn [fst snd app] in *.
  destruct Hsent as (batches & Hwire & Hdone & Hfull & Hlen & Htimer).
  destruct (fire_all (timers s) s eq_refl) as (extra & Hw & Hconcat & Hsmall & Hbatch & Ht).
  exists (batches ++ extra).
  split; [now rewrite Hw, Hwire, map_app|].
  split.
  { rewrite concat_app, Hconcat, <- Hdone. destruct (timers s) eqn:Htimers; [|reflexivity].
    destruct (batch s) as [|x l]; [reflexivity|].
    assert (0 < 0) by (apply Htimer; discriminate). lia. }
  split.
  { apply Forall_app. split.
    - eapply List.Forall_impl; [|exact Hfull]. simpl. intros b ->. lia.
    - eapply List.Forall_impl; [|exact Hsmall]. simpl. intros b Hb. lia. }
  split; [|exact Ht].
  rewrite Hbatch. destruct (timers s) eqn:Htimers; [|reflexivity].
  destruct (batch s) as [|x l]; [reflexivity|].
  assert (0 < 0) by (apply Htimer; discriminate). lia.
Qed.

End BatcherRunFacts.

(** ** Types the prompt validator cannot accept *)

Section UnmatchableTypes.

Import Js Schema Validator.

Variable rt : Runtime.




End UnmatchableTypes.

(** ** What the argument sanitizer stores *)

Section SanitizedValues.

Import Js Schema Sanitizer.

Variables (rt : Runtime) (h : Helpers).




End SanitizedValues.

(** ** What the tool validator accepts *)

Section ToolValidatorExact.

Import Js Schema Validator Violation.

Variable checkType : CheckType.

Lemma checkArgument_sound (schema : ObjectSchema) (args : Entries) (e : Message) :
  In e (flat_map (checkArgument checkType schema) args) ->
  exists param value paramSchema,
    In (param, value) args /\ property schema param = Some paramSchema
    /\ checkType param value paramSchema = Some e.
Proof.
  intros ([param value] & Hin & He)%in_flat_map. unfold checkArgument in He.
  destruct (property schema param) as [paramSchema|] eqn:Hp; [|destruct He].
  destruct (checkType param value paramSchema) as [e'|] eqn:Hc; [|destruct He].
  destruct He as [<-|[]]. eauto 6.
Qed.

Lemma validateArguments_valid (tool : Tool) (args : Entries) :
  valid (validateArguments checkType tool args) = true <->
  errors (validateArguments checkType tool args) = [].
Proof.
  pose proof (result_of_valid (errors (validateArguments checkType tool args))) as H.
  change (valid (result_of (errors (validateArguments checkType tool args))))
    with (valid (validateArguments checkType tool args)) in H.
  destruct (valid (validateArguments checkType tool args)),
    (errors (validateArguments checkType tool args)) as [|e l];
    split; try reflexivity; try discriminate; intros _.
  - destruct H as [_ H]. specialize (H ltac:(discriminate)). discriminate.
  - destruct H as [H _]. specialize (H eq_refl). now destruct H.
Qed.

(** X20: the tool validator accepts the arguments exactly when every
    missing required parameter has the name of a member of
    [Object.prototype] (and no entry at all), and [checkType] has
    nothing to say about any supplied argument that the schema
    declares, nor, given the schema of no field, about any undeclared
    one that has the name of such a member.  Every message of its list
    is the report of a missing required parameter or the answer of
    [checkType] for a supplied argument; an argument that the schema
    does not declare and that names no such member is never checked. *)
Theorem validateArguments_accepts_exactly (tool : Tool) (args : Entries) :
  let schema := inputSchema tool in
  (valid (validateArguments checkType tool args) = true <->
     (forall param, missing schema args param ->
        own args param = None /\ inherits param = true)
     /\ (forall param value paramSchema,
           In (param, value) args -> declared schema param = Some paramSchema ->
           checkType param value paramSchema = None)
     /\ (forall param value,
           In (param, value) args -> declared schema param = None ->
           properties schema <> None -> inherits param = true ->
           checkType param value inherited_member = None))
  /\ (forall e, In e (errors (validateArguments checkType tool args)) ->
        (exists param, e = MissingRequired param /\ missing schema args param)
        \/ (exists param value paramSchema,
              In (param, value) args /\ checkType param value paramSchema = Some e
              /\ (declared schema param = Some paramSchema
                  \/ (declared schema param = None /\ inherits param = true
                      /\ paramSchema = inherited_member))))
  /\ (forall param value,
        In (param, value) args -> declared schema param = None ->
        inherits param = false ->
        checkArgument checkType schema (param, value) = []).
Proof.
  cbv zeta.
  assert (Hsound : forall e, In e (errors (validateArguments checkType tool args)) ->
            (exists param, e = MissingRequired param
               /\ missing (inputSchema tool) args param
               /\ (own args param = None -> inherits param = false))
            \/ (exists param value paramSchema,
                  In (param, value) args
                  /\ property (inputSchema tool) param = Some paramSchema
                  /\ checkType param value paramSchema = Some e)).
  { intros e. rewrite validateArguments_errors, in_app_iff. intros [He|He].
    - left. now apply missing_required_sound.
    - right. now apply checkArgument_sound. }
  split; [|split].
  - rewrite validateArguments_valid. split.
    + intros Hnil. rewrite validateArguments_errors in Hnil.
      apply app_eq_nil in Hnil as [Hmiss Hcheck]. repeat split.
      * destruct (own args param) as [v|] eqn:Ho; [|reflexivity].
        assert (Hin : In (MissingRequired param) (missing_required (inputSchema tool) args)).
        { apply missing_required_spec. split; [exact H | congruence]. }
        rewrite Hmiss in Hin. destruct Hin.
      * destruct (inherits param) eqn:Hi; [reflexivity|].
        assert (Hin : In (MissingRequired param) (missing_required (inputSchema tool) args)).
        { apply missing_required_spec. split; [exact H | auto]. }
        rewrite Hmiss in Hin. destruct Hin.
      * intros param value paramSchema Hin Hd.
        destruct (checkType param value paramSchema) as [e|] eqn:Hc; [|reflexivity].
        pose proof (checkArgument_complete checkType _ _ _ _ _ _ Hin
                      (property_declared _ _ _ Hd) Hc) as He.
        rewrite Hcheck in He. destruct He.
      * intros param value Hin Hd Hprops Hi.
        destruct (checkType param value inherited_member) as [e|] eqn:Hc; [|reflexivity].
        assert (Hp : property (inputSchema tool) param = Some inherited_member).
        { apply property_Some. right. auto. }
        pose proof (checkArgument_complete checkType _ _ _ _ _ _ Hin Hp Hc) as He.
        rewrite Hcheck in He. destruct He.
    + intros (Hmissing & Hdeclared & Hinherited).
      destruct (errors (validateArguments checkType tool args)) as [|e l] eqn:He;
        [reflexivity|].
      destruct (Hsound e (or_introl eq_refl))
        as [(param & _ & Hm & Hn)|(param & value & ps & Hin & Hp & Hc)].
      * destruct (Hmissing param Hm) as [Ho Hi]. rewrite (Hn Ho) in Hi. discriminate.
      * apply property_Some in Hp as [Hd|(Hd & Hprops & Hi & ->)].
        -- rewrite (Hdeclared _ _ _ Hin Hd) in Hc. discriminate.
        -- rewrite (Hinherited _ _ Hin Hd Hprops Hi) in Hc. discriminate.
  - intros e He.
    destruct (Hsound e He) as [(param & -> & Hm & _)|(param & value & ps & Hin & Hp & Hc)].
    + left. eauto.
    + right. exists param, value, ps. split; [exact Hin|]. split; [exact Hc|].
      apply property_Some in Hp as [Hd|(Hd & _ & Hi & ->)]; auto.
  - intros param value _ Hd Hi. unfold checkArgument.
    rewrite (proj2 (property_None (inputSchema tool) param)); [reflexivity | auto].
Qed.

End ToolValidatorExact.

(** ** Tool discovery *)

Section DiscoveryFacts.

Import Js Client Discovery.

Context {Cache : Type}.
Variables (h : Helpers Cache) (server : Server).

Lemma validateListToolsResponse_malformed (response : RPCResponse) :
  ~ well_formed response -> validateListToolsResponse h response = Throw invalid_format.
Proof.
  intros Hnot. unfold validateListToolsResponse.
  destruct (result response) as [r|] eqn:Hr; [|reflexivity].
  destruct (truthy r) eqn:Ht; [|reflexivity]. simpl.
  destruct (prop r "tools") eqn:Hp; try reflexivity.
  exfalso. apply Hnot. exists r, items. auto.
Qed.

(** X15: a call of [listTools] with a cursor that is not empty is
    never answered from the cache: it puts one [tools/list] request
    with that cursor on the wire.  An empty cursor counts as none.
    When the request fails, or the answer has no array of tools under
    a truthy result, the call throws what [handleDiscoveryError] makes
    of the error and the cache and the discovery time stay as they
    were. *)
Theorem listTools_cursor_and_malformed_response
    (now updated : Z) (cursor : option string) (m : Manager Cache) :
  let m' := snd (listTools h server now updated cursor m) in
  (no_cursor cursor = false ->
     transmitted m' = transmitted m ++ [Request (list_request h cursor m)]
     /\ exists c, cursor = Some c
          /\ params (list_request h cursor m) = JObj [("cursor", JStr c)])
  /\ (isCacheValid h now m = true ->
      listTools h server now updated (Some "") m = (Normal (getCachedTools h m), m)
      /\ listTools h server now updated None m = (Normal (getCachedTools h m), m))
  /\ (forall e, fst (listTools h server now updated cursor m) = Throw e ->
        toolsCache m' = toolsCache m /\ lastDiscoveryTime m' = lastDiscoveryTime m
        /\ exists cause, e = handleDiscoveryError h cause)
  /\ (forall response,
        isCacheValid h now m && no_cursor cursor = false ->
        respond server (transmitted m) (list_request h cursor m) = Normal response ->
        ~ well_formed response ->
        fst (listTools h server now updated cursor m)
        = Throw (handleDiscoveryError h invalid_format)).
Proof.
  cbv zeta. unfold listTools. split; [|split; [|split]].
  - intros Hc. rewrite Hc, andb_false_r.
    split.
    + destruct (respond server (transmitted m) (list_request h cursor m)) as [response|e];
        [|reflexivity].
      destruct (validateListToolsResponse h response); reflexivity.
    + destruct cursor as [c|]; [|discriminate]. exists c. split; [reflexivity|].
      simpl in *. now rewrite Hc.
  - intros ->. split; reflexivity.
  - intros e. destruct (isCacheValid h now m && no_cursor cursor); [discriminate|].
    destruct (respond server (transmitted m) (list_request h cursor m)) as [response|e'].
    + destruct (validateListToolsResponse h response) as [result|e'']; [discriminate|].
      simpl. intros [= <-]. eauto.
    + simpl. intros [= <-]. eauto.
  - intros response -> -> Hbad.
    now rewrite (validateListToolsResponse_malformed response Hbad).
Qed.

End DiscoveryFacts.

(** ** The template cache *)

Section TemplateFacts.

Import Templates.

Context {T : Type}.
Variable fetchTemplate : list (string * bool) -> string -> Completion T.

Lemma fetched_times_app (uri : string) (log : list (string * bool)) (f : string * bool) :
  fetched_times uri (log ++ [f])
  = fetched_times uri log + (if String.eqb (fst f) uri && snd f then 1 else 0).
Proof.
  unfold fetched_times. rewrite List.filter_app, length_app. simpl.
  destruct (String.eqb (fst f) uri && snd f); reflexivity.
Qed.

Lemma getTemplate_fetched_once (templateUri : string) (s : Handler T) :
  fetched_once s -> fetched_once (snd (getTemplate fetchTemplate templateUri s)).
Proof.
  intros Hs. unfold getTemplate.
  destruct (templateCache s !! templateUri) as [cached|] eqn:Hc; [exact Hs|].
  destruct (fetchTemplate (fetches s) templateUri) as [template|e]; intros uri; simpl.
  - rewrite fetched_times_app, Hs. simpl. rewrite lookup_insert. rewrite andb_true_r.
    destruct (String.eqb_spec templateUri uri) as [<-|Hne].
    + rewrite Hc. now rewrite decide_True.
    + rewrite decide_False by exact Hne. lia.
  - rewrite fetched_times_app, Hs. simpl. rewrite andb_false_r. lia.
Qed.

Lemma getTemplate_fetches (templateUri : string) (s : Handler T) :
  length (fetches (snd (getTemplate fetchTemplate templateUri s))) <= S (length (fetches s)).
Proof.
  unfold getTemplate. destruct (templateCache s !! templateUri); [simpl; lia|].
  destruct (fetchTemplate (fetches s) templateUri); simpl; rewrite length_app; simpl; lia.
Qed.

Lemma getTemplates_fetched_once (uris : list string) (s : Handler T) :
  fetched_once s ->
  fetched_once (getTemplates fetchTemplate uris s)
  /\ length (fetches (getTemplates fetchTemplate uris s)) <= length (fetches s) + length uris.
Proof.
  revert s. induction uris as [|uri rest IH]; intros s Hs; simpl; [split; [exact Hs | lia]|].
  destruct (IH _ (getTemplate_fetched_once uri s Hs)) as [Hinv Hlen].
  split; [exact Hinv|]. pose proof (getTemplate_fetches uri s). lia.
Qed.

(** X16: the template cache never expires.  Whatever templates a new
    handler is asked for, in whatever order and however the server
    answers, no template uri is fetched with success more than once: a
    template is in the cache exactly when one fetch of its uri
    returned, and from then on it is answered from the cache without a
    fetch.  At most one fetch is made for each call. *)
Theorem getTemplate_fetches_each_template_once (uris : list string) :
  let s := getTemplates fetchTemplate uris initial in
  (forall uri, fetched_times uri (fetches s) <= 1)
  /\ (forall uri, is_Some (templateCache s !! uri) <-> fetched_times uri (fetches s) = 1)
  /\ (forall uri cached, templateCache s !! uri = Some cached ->
        getTemplate fetchTemplate uri s = (Normal cached, s))
  /\ length (fetches s) <= length uris.
Proof.
  cbv zeta.
  destruct (getTemplates_fetched_once uris initial) as [Hinv Hlen].
  { intros uri. simpl. now rewrite lookup_empty. }
  split; [|split; [|split; [|exact Hlen]]].
  - intros uri. rewrite (Hinv uri). destruct (_ !! uri); lia.
  - intros uri. rewrite (Hinv uri).
    destruct (_ !! uri); split; eauto; try discriminate. intros [x Hx]. discriminate.
  - intros uri cached Hc. unfold getTemplate. now rewrite Hc.
Qed.

End TemplateFacts.

(** ** Filling a template *)

Section TemplateFacts2.

Import Js Template.

#[local] Arguments String.append !_ _ / : simpl nomatch.

Lemma starts_with_append (search rest : string) :
  starts_with search (search +:+ rest) = true
  /\ drop_chars (String.length search) (search +:+ rest) = rest.
Proof.
  induction search as [|a search [IH1 IH2]]; simpl; [auto|].
  now rewrite Ascii.eqb_refl, IH1, IH2.
Qed.

Lemma starts_with_split (search s : string) :
  starts_with search s = true ->
  s = search +:+ drop_chars (String.length search) s.
Proof.
  revert s. induction search as [|a search IH]; intros s; simpl; [reflexivity|].
  destruct s as [|b s]; [discriminate|].
  intros [Hab Hs]%andb_true_iff. apply Ascii.eqb_eq in Hab. subst b.
  now rewrite <- (IH s Hs).
Qed.

(** [split_at_first] finds an occurrence. *)
Lemma split_at_first_sound (search s before after : string) :
  split_at_first search s = Some (before, after) ->
  s = before +:+ search +:+ after.
Proof.
  revert before. induction s as [|c s IH]; intros before; simpl.
  - destruct (starts_with search EmptyString) eqn:Hs; [|discriminate].
    intros [= <- <-]. simpl. now apply starts_with_split.
  - destruct (starts_with search (String c s)) eqn:Hs.
    + intros [= <- <-]. simpl. now apply starts_with_split.
    + destruct (split_at_first search s) as [[b a]|]; [|discriminate].
      intros [= <- <-]. simpl. now rewrite (IH b eq_refl).
Qed.

(** It is the first one. *)
Lemma split_at_first_first (search before after : string) :
  (forall k, k < String.length before ->
     starts_with search (drop_chars k (before +:+ search +:+ after)) = false) ->
  split_at_first search (before +:+ search +:+ after) = Some (before, after).
Proof.
  induction before as [|c before IH]; intros Hfirst.
  - simpl. destruct (starts_with_append search after) as [Hs Hd].
    destruct (search +:+ after) as [|x rest] eqn:Heq; simpl; rewrite Hs, Hd; reflexivity.
  - simpl. pose proof (Hfirst 0 ltac:(simpl; lia)) as H0. simpl in H0. rewrite H0.
    rewrite IH; [reflexivity|].
    intros k Hk. apply (Hfirst (S k)). simpl. lia.
Qed.

Lemma includes_append (search front s : string) :
  includes search s = true -> includes search (front +:+ s) = true.
Proof.
  unfold includes. induction front as [|c front IH]; intros Hs; simpl; [exact Hs|].
  destruct (starts_with search (String c (front +:+ s))); [reflexivity|].
  specialize (IH Hs). destruct (split_at_first search (front +:+ s)) as [[b a]|];
    [reflexivity | discriminate].
Qed.

Lemma substitution_plain (matched before after replacement : string) :
  plain replacement = true ->
  substitution matched before after replacement = replacement.
Proof.
  induction replacement as [|c rest IH]; simpl; [reflexivity|].
  intros [Hc Hrest]%andb_true_iff. apply negb_true_iff in Hc. rewrite Hc.
  now rewrite (IH Hrest).
Qed.

Variables (placeholder_of : string -> string) (value_of : JValue -> string).

(** X21: the loop replaces only the first occurrence of a placeholder.
    When the template is [before], the placeholder of [key] and
    [after], with no earlier occurrence of the placeholder, filling it
    with one parameter whose text holds no dollar sign gives [before],
    the text and [after]: what follows the first occurrence is left as
    it is, so a placeholder that occurs again in [after] is still in
    the result.  This is the loop of [renderPrompt] (placeholders in
    double braces) and of [processTemplate] (in braces). *)
Theorem fill_replaces_first_occurrence_only (key : string) (value : JValue)
    (before after : string) :
  (forall k, k < String.length before ->
     starts_with (placeholder_of key)
       (drop_chars k (before +:+ placeholder_of key +:+ after)) = false) ->
  plain (value_of value) = true ->
  fill placeholder_of value_of (before +:+ placeholder_of key +:+ after) [(key, value)]
  = before +:+ value_of value +:+ after
  /\ (includes (placeholder_of key) after = true ->
      includes (placeholder_of key)
        (fill placeholder_of value_of (before +:+ placeholder_of key +:+ after)
           [(key, value)]) = true).
Proof.
  intros Hfirst Hplain.
  assert (Hfill : fill placeholder_of value_of
                    (before +:+ placeholder_of key +:+ after) [(key, value)]
                  = before +:+ value_of value +:+ after).
  { unfold fill. simpl. unfold includes, replace.
    rewrite (split_at_first_first _ _ _ Hfirst).
    now rewrite (substitution_plain _ _ _ _ Hplain). }
  split; [exact Hfill|]. intros Hafter. rewrite Hfill.
  apply includes_append, includes_append, Hafter.
Qed.

(** X22: parameters whose placeholders do not occur in the template
    leave it unchanged, whatever their values; so does an empty set of
    parameters. *)
Theorem fill_without_placeholders (template : string) (params : Entries) :
  Forall (fun entry => includes (placeholder_of (fst entry)) template = false) params ->
  fill placeholder_of value_of template params = template.
Proof.
  unfold fill. induction 1 as [|[key value] rest Hkey _ IH]; simpl; [reflexivity|].
  simpl in Hkey. now rewrite Hkey.
Qed.

End TemplateFacts2.

(** ** More concrete runs *)

Section MoreRuns.

Import Js Schema Validator Sanitizer Template Example Samples.


(** The theorem of X21 at a greeting that names its parameter twice. *)
Lemma fill_replaces_first_occurrence_only_witness :
  fill double_braces (fun _ => "World")
    (greeting_before +:+ double_braces "name" +:+ greeting_after) [("name", JNull)]
  = greeting_before +:+ "World" +:+ greeting_after
  /\ (includes (double_braces "name") greeting_after = true ->
      includes (double_braces "name")
        (fill double_braces (fun _ => "World")
           (greeting_before +:+ double_braces "name" +:+ greeting_after)
           [("name", JNull)]) = true).
Proof.
  apply (fill_replaces_first_occurrence_only double_braces (fun _ => "World")
           "name" JNull greeting_before greeting_after).
  - intros k Hk. do 6 (destruct k as [|k]; [reflexivity|]).
    unfold greeting_before in Hk. simpl in Hk. lia.
  - reflexivity.
Defined.

(** The theorem of X22 at a template without placeholders. *)
Lemma fill_without_placeholders_witness :
  fill braces (fun _ => "1") "file:///readme" [("id", JNum 1); ("page", JNum 2)]
  = "file:///readme".
Proof.
  apply (fill_without_placeholders braces (fun _ => "1") "file:///readme"
           [("id", JNum 1); ("page", JNum 2)]).
  repeat constructor.
Defined.

Example renderContent_run :
  renderContent (fun _ => "World") "Hello {{name}}! Bye {{name}}" [("name", JNull)]
  = "Hello World! Bye {{name}}".
Proof. reflexivity. Qed.

Example createBatches_run :
  Batches.createBatches Batches.toolBatchSize (seq 1 12)
  = [[1; 2; 3; 4; 5]; [6; 7; 8; 9; 10]; [11; 12]].
Proof. reflexivity. Qed.

End MoreRuns.

(** ** Who may call a tool *)

Section AccessPermissions.

Import Access.

Context {C : Type}.
Variables (toolName : string) (context : ExecutionContext) (s : Controller C).

Lemma access_granted_iff (h : Helpers C) :
  access_granted h toolName context s = true <->
  forall perm, In perm (default [] (permissionMap s !! toolName)) ->
               In perm (getUserPermissions h (userId context)).
Proof.
  unfold access_granted, checkToolAccess.
  destruct (default [] (permissionMap s !! toolName)) as [|perm perms] eqn:Hreq; simpl.
  - split; [intros _ perm [] | reflexivity].
  - rewrite andb_true_iff, forallb_forall, existsb_exists. split.
    + intros [(x & Hx & Heq) Hall] p [<-|Hp].
      * apply String.eqb_eq in Heq. now subst x.
      * destruct (proj1 (existsb_exists _ _) (Hall p Hp)) as (y & Hy & Hey).
        apply String.eqb_eq in Hey. now subst y.
    + intros Hall. split.
      * exists perm. split; [apply Hall; now left | apply String.eqb_refl].
      * intros p Hp. apply existsb_exists. exists p.
        split; [apply Hall; now right | apply String.eqb_refl].
Qed.

(** X23: access to a tool is granted exactly when the user holds every
    permission the permission map lists for it.  So a tool the map
    does not know, or lists without permissions, is open to every
    user, and a user who gains permissions never loses access. *)
Theorem checkToolAccess_permissions (h : Helpers C) :
  (access_granted h toolName context s = true <->
     forall perm, In perm (default [] (permissionMap s !! toolName)) ->
                  In perm (getUserPermissions h (userId context)))
  /\ (permissionMap s !! toolName = None \/ permissionMap s !! toolName = Some [] ->
      access_granted h toolName context s = true)
  /\ (forall h' : Helpers C,
        (forall perm, In perm (getUserPermissions h (userId context)) ->
                      In perm (getUserPermissions h' (userId context))) ->
        access_granted h toolName context s = true ->
        access_granted h' toolName context s = true).
Proof.
  split; [apply access_granted_iff|]. split.
  - intros Hopen. apply access_granted_iff.
    destruct Hopen as [-> | ->]; intros perm [].
  - intros h' Hmore Hh. apply access_granted_iff. intros perm Hp.
    apply Hmore. revert perm Hp. now apply access_granted_iff.
Qed.

End AccessPermissions.

(** ** Parameters the prompt schema does not declare *)

Section UnknownParameters.

Import Js Schema Validator Samples.

Variable rt : Runtime.

(** X24: when the prompt validator returns, it reports a parameter as
    unknown exactly when the schema allows no additional properties,
    the parameter is supplied, the schema does not declare it, and the
    lookup among the properties finds nothing inherited either: the
    schema has no properties at all, or the name is not that of a
    member of [Object.prototype].  A supplied parameter named
    [constructor], say, is therefore never reported as unknown by a
    schema that has properties. *)
Theorem validateParameters_unknown_parameters (prompt : PromptDefinition)
    (schema : ObjectSchema) (params : Entries) (validation : ValidationResult)
    (param : string) :
  parametersSchema prompt = Some schema ->
  validateParameters rt prompt params = Normal validation ->
  In (UnknownParameter param) (errors validation) <->
  additionalProperties schema = false
  /\ (exists value, In (param, value) params)
  /\ declared schema param = None
  /\ (properties schema = None \/ inherits param = false).
Proof.
  intros Hschema Hreturn.
  destruct (validateParameters_returned rt _ _ _ _ Hschema Hreturn) as [Hentries _].
  rewrite (validateEntries_origin rt _ _ _ _ _ Hentries). split.
  - intros [H|[(p & v & ps & pe & _ & _ & Hv & He)|(p & v & [= <-] & Hin & Hn & Ha)]].
    + apply missing_required_sound in H as (p & [=] & _).
    + apply validateParameter_about_value in Hv. rewrite List.Forall_forall in Hv.
      destruct (Hv _ He).
    + apply property_None in Hn as [Hd Hi]. eauto.
  - intros (Ha & [value Hin] & Hd & Hi). right. right. exists param, value.
    split; [reflexivity|]. split; [exact Hin|]. split; [|exact Ha].
    apply property_None. auto.
Qed.

End UnknownParameters.

Section UnknownParameterRun.

Import Js Schema Validator Example Samples.

(** The theorem of X24 at a count and a parameter the schema does not
    declare. *)
Lemma validateParameters_unknown_parameters_witness :
  In (UnknownParameter "extra")
    (errors (result_of [TypeExpected "count" "integer" "number"; UnknownParameter "extra"]))
  <-> additionalProperties counting_schema = false
      /\ (exists value, In ("extra", value) [("count", JNum 3); ("extra", JNum 1)])
      /\ declared counting_schema "extra" = None
      /\ (properties counting_schema = None \/ inherits "extra" = false).
Proof.
  apply (validateParameters_unknown_parameters plain_runtime counting_prompt counting_schema
           [("count", JNum 3); ("extra", JNum 1)]
           (result_of [TypeExpected "count" "integer" "number"; UnknownParameter "extra"])
           "extra"); reflexivity.
Defined.

End UnknownParameterRun.
